(** * NuvioMobile: codec-error classification, dual-engine surface and
      TV focus controls

    A shallow embedding of

    - [src/components/player/android/components/VideoSurface.tsx]
      ([CODEC_ERROR_PATTERNS], [isCodecError], the ExoPlayer and MPV event
      handlers and the props wired to each engine element),
    - [src/components/common/FocusablePressable.tsx] (both focusable
      controls, their focus and blur handlers and what they render),
    - [src/styles/tvFocus.ts] (the preset table).

    Strings are sequences of code units restricted to the range 0..255
    (the Basic Latin and Latin-1 blocks); JavaScript numbers are modelled
    by rationals. *)

From Stdlib Require Import List Bool Arith NArith ZArith QArith Lia Lqa.
From Stdlib Require Import Ascii String DecimalString DecimalNat.
From Stdlib Require Import Permutation.
Import ListNotations.

Set Implicit Arguments.

(** ** Strings of the host language *)

Module JsString.

Local Open Scope N_scope.

(** A string as the list of its code units. *)
Definition units (s : string) : list ascii := list_ascii_of_string s.

(** [String.prototype.toLowerCase] on one code unit of the range 0..255:
    A..Z and the Latin-1 capitals (all of 0xC0..0xDE but the
    multiplication sign 0xD7) move up by 32. *)
Definition lowerUnit (c : ascii) : ascii :=
  let n := N_of_ascii c in
  if ((65 <=? n) && (n <=? 90)) || ((192 <=? n) && (n <=? 222) && negb (n =? 215))
  then ascii_of_N (n + 32)
  else c.

Definition toLowerCase (s : list ascii) : list ascii := map lowerUnit s.

(** Every code unit of the range, in order. *)
Definition allUnits : list ascii := map ascii_of_nat (seq 0 256).

(** [Array.prototype.join(' ')] on an array of strings. *)
Fixpoint join (parts : list string) : string :=
  match parts with
  | [] => EmptyString
  | [p] => p
  | p :: rest => (p ++ " " ++ join rest)%string
  end.

End JsString.

(** ** The regular expressions of the pattern table

    [new RegExp(pattern, 'i')] for the pattern syntax the table uses:
    literal characters, the wildcard [.], and the postfix star. *)

Module RegExp.

Import JsString.
Local Open Scope N_scope.

Inductive CharSet : Type :=
| Lit (c : ascii)
| Dot.

Inductive Term : Type :=
| One (a : CharSet)
| Star (a : CharSet).

Definition Pattern : Type := list Term.

Definition atom (c : ascii) : CharSet :=
  if Ascii.eqb c "."%char then Dot else Lit c.

(** The pattern source read left to right: an atom, then a star if one
    follows. *)
Fixpoint parse (p : list ascii) : Pattern :=
  match p with
  | [] => []
  | c :: rest =>
      match rest with
      | "*"%char :: rest' => Star (atom c) :: parse rest'
      | _ => One (atom c) :: parse rest
      end
  end.

(** Characters of the supported syntax that are not literals or handled
    by [parse]: none of them occurs in the table (see [patterns_plain]). *)
Definition special (c : ascii) : bool :=
  existsb (Ascii.eqb c)
          (units "\^$+?()[]{}|").

(** A star is only read after an atom. *)
Fixpoint plain (p : list ascii) : bool :=
  match p with
  | [] => true
  | c :: rest =>
      negb (special c) && negb (Ascii.eqb c "*"%char) &&
      match rest with
      | "*"%char :: rest' => plain rest'
      | _ => plain rest
      end
  end.

(** Canonicalize of the [i] flag (no [u] flag): the code unit of the
    upper-case form when that form is a single code unit.  The capital
    of y-diaeresis (0xFF) is U+0178 and the capital of the micro sign
    (0xB5) is U+039C; sharp s (0xDF) upper-cases to two code units and
    stays. *)
Definition canonicalize (c : ascii) : N :=
  let n := N_of_ascii c in
  if ((97 <=? n) && (n <=? 122)) || ((224 <=? n) && (n <=? 254) && negb (n =? 247))
  then n - 32
  else if n =? 255 then 376
  else if n =? 181 then 924
  else n.

(** Line terminators in the range: line feed and carriage return. *)
Definition lineTerminator (c : ascii) : bool :=
  let n := N_of_ascii c in (n =? 10) || (n =? 13).

(** One character against one atom, under the [i] flag. *)
Definition accepts (a : CharSet) (c : ascii) : bool :=
  match a with
  | Lit p => canonicalize c =? canonicalize p
  | Dot => negb (lineTerminator c)
  end.

(** The backtracking matcher: does [re] match a prefix of [s]?  The star
    is greedy in the engine; for a yes/no answer the order in which the
    alternatives are tried is immaterial. *)
Fixpoint matchHere (re : Pattern) (s : list ascii) {struct re} : bool :=
  match re with
  | [] => true
  | One a :: re' =>
      match s with
      | [] => false
      | c :: s' => accepts a c && matchHere re' s'
      end
  | Star a :: re' =>
      (fix star (s : list ascii) : bool :=
         match s with
         | [] => matchHere re' []
         | c :: s' => (accepts a c && star s') || matchHere re' s
         end) s
  end.

(** [RegExp.prototype.test] without the [g] or [y] flag: a match may
    start at any index, the end of the string included. *)
Fixpoint test (re : Pattern) (s : list ascii) : bool :=
  matchHere re s ||
  match s with
  | [] => false
  | _ :: s' => test re s'
  end.

End RegExp.

(** ** VideoSurface.tsx: the classifier *)

Module VideoSurface.

Import JsString.
Local Open Scope string_scope.

Definition CODEC_ERROR_PATTERNS : list string :=
  [ "exceeds_capabilities";
    "no_exceeds_capabilities";
    "decoder_exception";
    "decoder.*error";
    "codec.*error";
    "unsupported.*codec";
    "mediacodec.*exception";
    "omx.*error";
    "dolby.*vision";
    "hevc.*error";
    "no suitable decoder";
    "decoder initialization failed";
    "format.no_decoder";
    "no_decoder";
    "decoding_failed";
    "error_code_decoding";
    "exoplaybackexception";
    "mediacodecvideodecoder";
    "mediacodecvideodecoderexception";
    "decoder failed" ].

Definition isCodecError (errorString : string) : bool :=
  let lowerError := toLowerCase (units errorString) in
  existsb (fun pattern =>
             let regex := RegExp.parse (units pattern) in
             RegExp.test regex lowerError)
          CODEC_ERROR_PATTERNS.


(** *** Payloads

    JavaScript numbers are rationals here; a field that may be absent
    is an [option]. *)

Definition number : Type := Q.

Record NaturalSize : Type := { width : number; height : number }.

(** A track as the native player reports it. *)
Record RawTrack : Type :=
  { index : option number; title : option string; language : option string }.

(** A track as handed to [onTracksChanged]. *)
Record TrackInfo : Type :=
  { id : number; name : string; trackLanguage : option string }.

Record LoadPayload : Type :=
  { duration : number;
    naturalSize : NaturalSize;
    audioTracks : option (list RawTrack);
    textTracks : option (list RawTrack) }.

Record ProgressPayload : Type :=
  { currentTime : number; playableDuration : number }.

(** The calls the surface makes on the callbacks of its props.  Writes
    to the console and to the logger are not recorded. *)
Inductive Call : Type :=
| OnLoad (data : LoadPayload)
| OnProgress (data : ProgressPayload)
| OnSeek (currentTime : number)
| OnEnd
| OnError (errorString : string)
| OnBuffer (isBuffering : bool)
| OnCodecError
| OnTracksChanged (audioTracks subtitleTracks : list TrackInfo).

(** The props the handlers read.  [useExoPlayer] defaults to [true];
    [onCodecError] and [onTracksChanged] are optional callbacks, of
    which only the presence matters. *)
Record Props : Type :=
  { useExoPlayer : option bool;
    onCodecError : bool;
    onTracksChanged : bool }.

Definition useExoPlayerOrDefault (props : Props) : bool :=
  match useExoPlayer props with
  | Some b => b
  | None => true
  end.

(** Truthiness of a string-valued field: present and not empty. *)
Definition truthyString (v : option string) : list string :=
  match v with
  | Some EmptyString | None => []
  | Some s => [s]
  end.

(** Truthiness of a number: present and not zero. *)
Definition truthyNumber (v : option number) : option number :=
  match v with
  | Some q => if Qeq_bool q 0 then None else Some q
  | None => None
  end.

(** *** MPV handlers *)

Record MpvLoadData : Type :=
  { mpvDuration : number; mpvWidth : number; mpvHeight : number }.

Record MpvProgressData : Type :=
  { mpvCurrentTime : number; mpvProgressDuration : number }.

Definition handleMpvLoad (data : MpvLoadData) : list Call :=
  [ OnLoad {| duration := mpvDuration data;
              naturalSize := {| width := mpvWidth data;
                                height := mpvHeight data |};
              audioTracks := None;
              textTracks := None |} ].

Definition handleMpvProgress (data : MpvProgressData) : list Call :=
  [ OnProgress {| currentTime := mpvCurrentTime data;
                  playableDuration := mpvCurrentTime data |} ].

Definition handleMpvError (error : string) : list Call :=
  [ OnError error ].

Definition handleMpvEnd : list Call := [ OnEnd ].

(** *** ExoPlayer handlers *)

Record ExoLoadData : Type :=
  { exoDuration : number;
    exoNaturalSize : option NaturalSize;
    exoAudioTracks : option (list RawTrack);
    exoTextTracks : option (list RawTrack) }.

Record ExoProgressData : Type :=
  { exoCurrentTime : number; exoPlayableDuration : option number }.

(** The text of [Track ${i + 1}]. *)
Definition trackLabel (i : nat) : string :=
  "Track " ++ NilZero.string_of_uint (Nat.to_uint (i + 1)).

Definition numberOfIndex (i : nat) : number := inject_Z (Z.of_nat i).

Definition mapTrack (t : RawTrack) (i : nat) : TrackInfo :=
  {| id := match index t with Some n => n | None => numberOfIndex i end;
     name := match truthyString (title t) with
             | s :: _ => s
             | [] => match truthyString (language t) with
                     | s :: _ => s
                     | [] => trackLabel i
                     end
             end;
     trackLanguage := language t |}.

(** [tracks?.map((t, i) => ...) ?? []] *)
Fixpoint mapTracksFrom (i : nat) (tracks : list RawTrack) : list TrackInfo :=
  match tracks with
  | [] => []
  | t :: rest => mapTrack t i :: mapTracksFrom (S i) rest
  end.

Definition mapTracks (tracks : option (list RawTrack)) : list TrackInfo :=
  match tracks with
  | Some ts => mapTracksFrom 0 ts
  | None => []
  end.

Definition handleExoLoad (props : Props) (data : ExoLoadData) : list Call :=
  let audio := mapTracks (exoAudioTracks data) in
  let subtitle := mapTracks (exoTextTracks data) in
  (if onTracksChanged props &&
      ((0 <? List.length audio)%nat || (0 <? List.length subtitle)%nat)
   then [ OnTracksChanged audio subtitle ] else []) ++
  [ OnLoad {| duration := exoDuration data;
              naturalSize := match exoNaturalSize data with
                             | Some sz => sz
                             | None => {| width := 1920; height := 1080 |}
                             end;
              audioTracks := exoAudioTracks data;
              textTracks := exoTextTracks data |} ].

Definition handleExoProgress (data : ExoProgressData) : list Call :=
  [ OnProgress {| currentTime := exoCurrentTime data;
                  playableDuration :=
                    match truthyNumber (exoPlayableDuration data) with
                    | Some q => q
                    | None => exoCurrentTime data
                    end |} ].

(** The error payload of the native video element: a bare string, or an
    object whose [error] field is a string or an object with
    [errorString] and [errorCode], next to [nativeStackAndroid] and
    [message]. *)
Inductive ErrorField : Type :=
| ErrorText (s : string)
| ErrorInfo (errorString errorCode : option string).

Inductive ExoError : Type :=
| ErrorString (s : string)
| ErrorObject (error : option ErrorField)
              (nativeStackAndroid : option (list string))
              (message : option string).

(** The six tests of [handleExoError], in the order of the source. *)
Definition errorParts (error : ExoError) : list string :=
  match error with
  | ErrorString s => [s]
  | ErrorObject fld stack msg =>
      (match fld with Some (ErrorText s) => [s] | _ => [] end) ++
      (match fld with Some (ErrorInfo es _) => truthyString es | _ => [] end) ++
      (match fld with Some (ErrorInfo _ ec) => truthyString ec | _ => [] end) ++
      (match stack with Some frames => [join frames] | None => [] end) ++
      truthyString msg
  end.

Section Handlers.

(** [JSON.stringify] of the host, on a payload none of whose fields
    gave a part. *)
Variable JSON_stringify : ExoError -> string.

Definition extractErrorString (error : ExoError) : string :=
  let parts := errorParts error in
  if (0 <? List.length parts)%nat then join parts else JSON_stringify error.

Definition handleExoError (props : Props) (error : ExoError) : list Call :=
  let errorString := extractErrorString error in
  if isCodecError errorString
  then (if onCodecError props then [ OnCodecError ] else [])
  else [ OnError errorString ].

Definition handleExoBuffer (isBuffering : bool) : list Call :=
  [ OnBuffer isBuffering ].

Definition handleExoEnd : list Call := [ OnEnd ].

Definition handleExoSeek (currentTime : number) : list Call :=
  [ OnSeek currentTime ].

(** *** The rendered engine element (native platforms)

    The callback props each element is given.  A prop the surface
    does not pass is [None]: the engine has nobody to notify. *)

Record VideoProps : Type :=
  { video_onLoad : option (ExoLoadData -> list Call);
    video_onProgress : option (ExoProgressData -> list Call);
    video_onEnd : option (list Call);
    video_onError : option (ExoError -> list Call);
    video_onBuffer : option (bool -> list Call);
    video_onSeek : option (number -> list Call) }.

Record MpvPlayerProps : Type :=
  { mpv_onLoad : option (MpvLoadData -> list Call);
    mpv_onProgress : option (MpvProgressData -> list Call);
    mpv_onEnd : option (list Call);
    mpv_onError : option (string -> list Call);
    mpv_onTracksChanged : option (list TrackInfo -> list TrackInfo -> list Call) }.

Inductive Element : Type :=
| VideoElement (p : VideoProps)
| MpvPlayerElement (p : MpvPlayerProps).

(** [useExoPlayer && Video ? <Video .../> : MpvPlayer ? <MpvPlayer .../> : null]
    where both modules are loaded. *)
Definition render (props : Props) : Element :=
  if useExoPlayerOrDefault props
  then VideoElement
         {| video_onLoad := Some (handleExoLoad props);
            video_onProgress := Some handleExoProgress;
            video_onEnd := Some handleExoEnd;
            video_onError := Some (handleExoError props);
            video_onBuffer := Some handleExoBuffer;
            video_onSeek := Some handleExoSeek |}
  else MpvPlayerElement
         {| mpv_onLoad := Some handleMpvLoad;
            mpv_onProgress := Some handleMpvProgress;
            mpv_onEnd := Some handleMpvEnd;
            mpv_onError := Some handleMpvError;
            mpv_onTracksChanged :=
              if onTracksChanged props
              then Some (fun a s => [ OnTracksChanged a s ])
              else None |}.

(** What an engine has to report. *)
Inductive ExoEvent : Type :=
| ExoLoad (data : ExoLoadData)
| ExoProgress (data : ExoProgressData)
| ExoEnd
| ExoErrorEvent (error : ExoError)
| ExoBuffer (isBuffering : bool)
| ExoSeek (currentTime : number).

Inductive MpvEvent : Type :=
| MpvLoad (data : MpvLoadData)
| MpvProgress (data : MpvProgressData)
| MpvEnd
| MpvErrorEvent (error : string)
| MpvTracksChanged (audioTracks subtitleTracks : list TrackInfo).

Inductive EngineEvent : Type :=
| FromExo (ev : ExoEvent)
| FromMpv (ev : MpvEvent).

(** An element calls the prop of the event, when it has one. *)
Definition call0 (h : option (list Call)) : list Call :=
  match h with Some c => c | None => [] end.

Definition call1 {A : Type} (h : option (A -> list Call)) (a : A) : list Call :=
  match h with Some f => f a | None => [] end.

Definition fireVideo (p : VideoProps) (ev : ExoEvent) : list Call :=
  match ev with
  | ExoLoad d => call1 (video_onLoad p) d
  | ExoProgress d => call1 (video_onProgress p) d
  | ExoEnd => call0 (video_onEnd p)
  | ExoErrorEvent e => call1 (video_onError p) e
  | ExoBuffer b => call1 (video_onBuffer p) b
  | ExoSeek t => call1 (video_onSeek p) t
  end.

Definition fireMpv (p : MpvPlayerProps) (ev : MpvEvent) : list Call :=
  match ev with
  | MpvLoad d => call1 (mpv_onLoad p) d
  | MpvProgress d => call1 (mpv_onProgress p) d
  | MpvEnd => call0 (mpv_onEnd p)
  | MpvErrorEvent e => call1 (mpv_onError p) e
  | MpvTracksChanged a s =>
      match mpv_onTracksChanged p with Some f => f a s | None => [] end
  end.

(** Only the mounted engine is heard. *)
Definition deliver (props : Props) (ev : EngineEvent) : list Call :=
  match render props, ev with
  | VideoElement p, FromExo e => fireVideo p e
  | MpvPlayerElement p, FromMpv e => fireMpv p e
  | _, _ => []
  end.

End Handlers.

End VideoSurface.

(** ** The owner of the engine selection

    The player screen that mounts the surface, holds the engine selection
    and passes [useExoPlayer] and [onCodecError] is not among the sources
    at hand. *)

Module Player.

Import VideoSurface.

Inductive EngineSelection : Type :=
| primaryEngine
| fallbackEngine.

(** Modelled from the spec: the state of the missing player screen, an
    [EngineSelection] that starts at [primaryEngine] and a boolean guard
    scoped to the current load attempt. *)
Record Session : Type :=
  { selection : EngineSelection;
    fallbackDone : bool }.

Definition initial : Session :=
  {| selection := primaryEngine; fallbackDone := false |}.

(** Modelled from the spec: the missing [engineFallback] side effect,
    a one-shot mutation behind the guard that flips the selection to
    [fallbackEngine]. *)
Definition engineFallback (st : Session) : Session :=
  if fallbackDone st then st
  else {| selection := fallbackEngine; fallbackDone := true |}.

(** Modelled from the spec: the props the missing player screen hands to
    the surface, the primary engine while the selection is
    [primaryEngine] and [engineFallback] as [onCodecError]. *)
Definition surfaceProps (st : Session) : Props :=
  {| useExoPlayer := Some match selection st with
                          | primaryEngine => true
                          | fallbackEngine => false
                          end;
     onCodecError := true;
     onTracksChanged := true |}.

Definition react (st : Session) (c : Call) : Session :=
  match c with
  | OnCodecError => engineFallback st
  | _ => st
  end.

Section Run.

Variable JSON_stringify : ExoError -> string.

(** One event of the mounted engine: the calls of the surface, and the
    session after the player screen has reacted to them. *)
Definition step (st : Session) (ev : EngineEvent) : Session * list Call :=
  let calls := deliver JSON_stringify (surfaceProps st) ev in
  (fold_left react calls st, calls).

Fixpoint run (st : Session) (evs : list EngineEvent) : Session * list Call :=
  match evs with
  | [] => (st, [])
  | ev :: rest =>
      let (st1, calls1) := step st ev in
      let (st2, calls2) := run st1 rest in
      (st2, calls1 ++ calls2)
  end.

Definition isTransition (before after : Session) : bool :=
  match selection before, selection after with
  | primaryEngine, fallbackEngine => true
  | _, _ => false
  end.

(** The number of primary-to-fallback transitions along a session. *)
Fixpoint transitions (st : Session) (evs : list EngineEvent) : nat :=
  match evs with
  | [] => 0
  | ev :: rest =>
      let st1 := fst (step st ev) in
      (if isTransition st st1 then 1 else 0) + transitions st1 rest
  end.

End Run.

End Player.

(** ** styles/tvFocus.ts *)

Module TvFocus.

Inductive TVFocusPresetName : Type :=
| card | poster | pill | button | icon | listRow.

Record TVFocusPreset : Type :=
  { focusScale : Q; focusRingWidth : Q; focusBorderRadius : Q }.

Definition tvFocusPresets (name : TVFocusPresetName) : TVFocusPreset :=
  match name with
  | card => {| focusScale := 1.05; focusRingWidth := 3; focusBorderRadius := 16 |}
  | poster => {| focusScale := 1.06; focusRingWidth := 3; focusBorderRadius := 12 |}
  | pill => {| focusScale := 1.04; focusRingWidth := 3; focusBorderRadius := 999 |}
  | button => {| focusScale := 1.04; focusRingWidth := 3; focusBorderRadius := 18 |}
  | icon => {| focusScale := 1.06; focusRingWidth := 3; focusBorderRadius := 999 |}
  | listRow => {| focusScale := 1.03; focusRingWidth := 3; focusBorderRadius := 14 |}
  end.

End TvFocus.

(** ** The animated value of the host

    [Animated.Value] with [Animated.timing(...).start()], as a tween over
    rationals: a value, and the timing that drives it while one runs. *)

Module Animated.

Record Timing : Type :=
  { fromValue : Q; toValue : Q; duration : Q; elapsed : Q }.

Record Value : Type :=
  { current : Q; running : option Timing }.

Definition newValue (v : Q) : Value := {| current := v; running := None |}.

(** [Easing.out(Easing.cubic)] *)
Definition easeOutCubic (t : Q) : Q := 1 - (1 - t) ^ 3.

(** Starting a timing replaces the one that runs; the new one leaves
    from the value reached so far. *)
Definition timingStart (v : Value) (to dur : Q) : Value :=
  {| current := current v;
     running := Some {| fromValue := current v; toValue := to;
                        duration := dur; elapsed := 0 |} |}.

(** The passage of [dt] milliseconds. *)
Definition advance (dt : Q) (v : Value) : Value :=
  match running v with
  | None => v
  | Some a =>
      let e := elapsed a + dt in
      if Qle_bool (duration a) e
      then {| current := toValue a; running := None |}
      else {| current := fromValue a +
                         (toValue a - fromValue a) * easeOutCubic (e / duration a);
              running := Some {| fromValue := fromValue a; toValue := toValue a;
                                 duration := duration a; elapsed := e |} |}
  end.

(** Where the value is heading. *)
Definition target (v : Value) : Q :=
  match running v with
  | Some a => toValue a
  | None => current v
  end.

Record Interpolation : Type :=
  { inputRange : Q * Q; outputRange : Q * Q }.

End Animated.

(** ** components/common/FocusablePressable.tsx

    [FocusablePressable] and [FocusableTouchableOpacity] share their
    props, state and handlers and differ in what they render. *)

Module Focusable.

Import Animated.

Section Control.

(** The focus or blur event of the host, handed on as it comes. *)
Variable FocusEvent : Type.

(** [Platform.isTV] *)
Variable Platform_isTV : bool.

Record FocusableProps : Type :=
  { enableTVFocus : option bool;
    preset : option TvFocus.TVFocusPresetName;
    focusBorderRadius : option Q;
    focusScale : option Q;
    focusRingWidth : option Q;
    onFocus : bool;
    onBlur : bool;
    focusable : option bool;
    activeOpacity : option Q }.

Definition enabled (props : FocusableProps) : bool :=
  match enableTVFocus props with
  | Some b => b
  | None => Platform_isTV
  end.

Definition resolvedPreset (props : FocusableProps) : option TvFocus.TVFocusPreset :=
  match preset props with
  | Some name => Some (TvFocus.tvFocusPresets name)
  | None => None
  end.

(** [a ?? b?.f ?? d] *)
Definition resolve (override : option Q) (fromPreset : option Q) (default : Q) : Q :=
  match override with
  | Some v => v
  | None => match fromPreset with
            | Some v => v
            | None => default
            end
  end.

Definition resolvedBorderRadius (props : FocusableProps) : Q :=
  resolve (focusBorderRadius props)
          (option_map TvFocus.focusBorderRadius (resolvedPreset props)) 12.

Definition resolvedScale (props : FocusableProps) : Q :=
  resolve (focusScale props)
          (option_map TvFocus.focusScale (resolvedPreset props)) 1.06.

Definition resolvedRingWidth (props : FocusableProps) : Q :=
  resolve (focusRingWidth props)
          (option_map TvFocus.focusRingWidth (resolvedPreset props)) 3.

(** [useRef(new Animated.Value(0))] and [useState(false)] *)
Record ControlState : Type :=
  { focusProgress : Value; isFocused : bool }.

Definition mount : ControlState :=
  {| focusProgress := newValue 0; isFocused := false |}.

Inductive Effect : Type :=
| CallOnFocus (e : FocusEvent)
| CallOnBlur (e : FocusEvent).

Definition animateTo (toValue : Q) (st : ControlState) : ControlState :=
  {| focusProgress := timingStart (focusProgress st) toValue 140;
     isFocused := isFocused st |}.

Definition setIsFocused (b : bool) (st : ControlState) : ControlState :=
  {| focusProgress := focusProgress st; isFocused := b |}.

Definition handleFocus (props : FocusableProps) (e : FocusEvent)
           (st : ControlState) : ControlState * list Effect :=
  let st' := if enabled props then animateTo 1 (setIsFocused true st) else st in
  (st', if onFocus props then [ CallOnFocus e ] else []).

Definition handleBlur (props : FocusableProps) (e : FocusEvent)
           (st : ControlState) : ControlState * list Effect :=
  let st' := if enabled props then animateTo 0 (setIsFocused false st) else st in
  (st', if onBlur props then [ CallOnBlur e ] else []).

(** Time passing between two events. *)
Definition elapse (dt : Q) (st : ControlState) : ControlState :=
  {| focusProgress := advance dt (focusProgress st);
     isFocused := isFocused st |}.

Definition containerAnimatedStyle (props : FocusableProps) : option Interpolation :=
  if enabled props
  then Some {| inputRange := (0, 1); outputRange := (1, resolvedScale props) |}
  else None.

Definition ringAnimatedStyle (props : FocusableProps) : option Interpolation :=
  if enabled props
  then Some {| inputRange := (0, 1); outputRange := (0.985, 1) |}
  else None.

(** The ring overlay: its border, and the style that animates its
    opacity and scale. *)
Record Ring : Type :=
  { borderWidth : Q; borderRadius : Q; ringStyle : option Interpolation }.

(** What a control renders, as far as focus visuals go. *)
Record Output : Type :=
  { animatedWrapper : bool;
    scaleTransform : option Interpolation;
    shadow : bool;
    ring : option Ring;
    highlight : option bool;
    focusableProp : option bool;
    activeOpacityProp : option Q }.

Definition ringOverlay (props : FocusableProps) : Ring :=
  {| borderWidth := resolvedRingWidth props;
     borderRadius := resolvedBorderRadius props;
     ringStyle := ringAnimatedStyle props |}.

Definition renderPressable (props : FocusableProps) (st : ControlState) : Output :=
  {| animatedWrapper := true;
     scaleTransform := containerAnimatedStyle props;
     shadow := isFocused st && enabled props;
     ring := if enabled props then Some (ringOverlay props) else None;
     highlight := if enabled props then Some (isFocused st) else None;
     focusableProp := Some match focusable props with
                           | Some b => b
                           | None => enabled props
                           end;
     activeOpacityProp := None |}.

Definition finalActiveOpacity (props : FocusableProps) : Q :=
  if enabled props then 1
  else match activeOpacity props with
       | Some v => v
       | None => 0.7
       end.

Definition renderTouchableOpacity (props : FocusableProps) (st : ControlState) : Output :=
  if negb (enabled props)
  then {| animatedWrapper := false;
          scaleTransform := None;
          shadow := false;
          ring := None;
          highlight := None;
          focusableProp := focusable props;
          activeOpacityProp := Some (finalActiveOpacity props) |}
  else {| animatedWrapper := true;
          scaleTransform := containerAnimatedStyle props;
          shadow := isFocused st;
          ring := Some (ringOverlay props);
          highlight := Some (isFocused st);
          focusableProp := Some match focusable props with
                                | Some b => b
                                | None => enabled props
                                end;
          activeOpacityProp := Some (finalActiveOpacity props) |}.

End Control.

End Focusable.

(** ** What it means for a pattern to occur in a string

    The reading of a pattern that the classifier is held against: a
    relation, with case ignored on literals, stated without reference to
    the matcher. *)

Module PatternSpec.

Import JsString RegExp.

(** A character fits a literal when the two are the same up to case, and
    fits the wildcard when it is not a line terminator. *)
Inductive Fits : CharSet -> ascii -> Prop :=
| fits_lit (p c : ascii) : lowerUnit c = lowerUnit p -> Fits (Lit p) c
| fits_dot (c : ascii) : lineTerminator c = false -> Fits Dot c.

(** The whole of [s] is an instance of [re]. *)
Inductive Matches : Pattern -> list ascii -> Prop :=
| matches_nil : Matches [] []
| matches_one a c re s :
    Fits a c -> Matches re s -> Matches (One a :: re) (c :: s)
| matches_star_done a re s :
    Matches re s -> Matches (Star a :: re) s
| matches_star_more a c re s :
    Fits a c -> Matches (Star a :: re) s -> Matches (Star a :: re) (c :: s).

(** [s] contains an instance of the pattern written [p], at any place and
    in any character case. *)
Definition Contains (p s : string) : Prop :=
  exists pre mid post,
    units s = pre ++ mid ++ post /\ Matches (parse (units p)) mid.

End PatternSpec.

(** ** The kinds of playback events

    The five kinds of events other than errors that the surface is to pass
    on, read off an engine event and off a call. *)

Module EventKinds.

Import VideoSurface.
Local Open Scope string_scope.

Inductive Kind : Type :=
| LoadKind | ProgressKind | SeekKind | EndKind | BufferKind.

Definition eventKind (ev : EngineEvent) : option Kind :=
  match ev with
  | FromExo (ExoLoad _) | FromMpv (MpvLoad _) => Some LoadKind
  | FromExo (ExoProgress _) | FromMpv (MpvProgress _) => Some ProgressKind
  | FromExo (ExoSeek _) => Some SeekKind
  | FromExo ExoEnd | FromMpv MpvEnd => Some EndKind
  | FromExo (ExoBuffer _) => Some BufferKind
  | FromExo (ExoErrorEvent _) | FromMpv (MpvErrorEvent _)
  | FromMpv (MpvTracksChanged _ _) => None
  end.

Definition callKind (c : Call) : option Kind :=
  match c with
  | OnLoad _ => Some LoadKind
  | OnProgress _ => Some ProgressKind
  | OnSeek _ => Some SeekKind
  | OnEnd => Some EndKind
  | OnBuffer _ => Some BufferKind
  | OnError _ | OnCodecError | OnTracksChanged _ _ => None
  end.

(** The event comes from the engine that is mounted. *)
Definition fromActiveEngine (props : Props) (ev : EngineEvent) : bool :=
  match ev with
  | FromExo _ => useExoPlayerOrDefault props
  | FromMpv _ => negb (useExoPlayerOrDefault props)
  end.

(** A stand-in for the host's [JSON.stringify] in closed examples. *)
Definition stringifyStub (error : ExoError) : string := "{}".



End EventKinds.

(** ** The pattern table, looked at as data *)

Module PatternTable.

Import JsString RegExp.
Local Open Scope string_scope.

(** The table without [no_exceeds_capabilities], [format.no_decoder] and
    [mediacodecvideodecoderexception]. *)
Definition SHORTER_PATTERNS : list string :=
  [ "exceeds_capabilities";
    "decoder_exception";
    "decoder.*error";
    "codec.*error";
    "unsupported.*codec";
    "mediacodec.*exception";
    "omx.*error";
    "dolby.*vision";
    "hevc.*error";
    "no suitable decoder";
    "decoder initialization failed";
    "no_decoder";
    "decoding_failed";
    "error_code_decoding";
    "exoplaybackexception";
    "mediacodecvideodecoder";
    "decoder failed" ].

(** No literal of the pattern is a line terminator. *)
Definition oneLine (re : Pattern) : bool :=
  forallb (fun t => match t with
                    | One (Lit p) | Star (Lit p) => negb (lineTerminator p)
                    | One Dot | Star Dot => true
                    end) re.

End PatternTable.

(** ** Sequences of focus inputs, and the values the styles take *)

Module FocusSession.

Import Animated Focusable.

(** The value of an interpolation of the host at [x]: linear between the
    two points of its ranges. *)
Definition interpolate (i : Interpolation) (x : Q) : Q :=
  let (i0, i1) := inputRange i in
  let (o0, o1) := outputRange i in
  o0 + (x - i0) * (o1 - o0) / (i1 - i0).

(** An animated value whose numbers are where they should be: the value
    and the ends of a running timing within 0 and 1, a positive duration,
    and no negative elapsed time. *)
Definition InRange (v : Value) : Prop :=
  0 <= current v <= 1 /\
  match running v with
  | None => True
  | Some a => 0 <= fromValue a <= 1 /\ 0 <= toValue a <= 1 /\
              0 < duration a /\ 0 <= elapsed a
  end.

Section Inputs.

Variable FocusEvent : Type.
Variable Platform_isTV : bool.

(** What happens to a control: it receives focus, loses it, or time
    passes. *)
Inductive Input : Type :=
| FocusIn (e : FocusEvent)
| BlurOut (e : FocusEvent)
| Wait (dt : Q).

Definition feed (props : FocusableProps) (st : ControlState) (input : Input)
  : ControlState * list (Effect FocusEvent) :=
  match input with
  | FocusIn e => handleFocus Platform_isTV props e st
  | BlurOut e => handleBlur Platform_isTV props e st
  | Wait dt => (elapse dt st, [])
  end.

Fixpoint play (props : FocusableProps) (inputs : list Input) (st : ControlState)
  : ControlState * list (Effect FocusEvent) :=
  match inputs with
  | [] => (st, [])
  | input :: rest =>
      let (st1, effects1) := feed props st input in
      let (st2, effects2) := play props rest st1 in
      (st2, effects1 ++ effects2)
  end.

(** The callbacks the inputs ask for, one after the other. *)
Definition callbacks (props : FocusableProps) (inputs : list Input)
  : list (Effect FocusEvent) :=
  flat_map (fun input =>
              match input with
              | FocusIn e => if onFocus props then [ CallOnFocus e ] else []
              | BlurOut e => if onBlur props then [ CallOnBlur e ] else []
              | Wait _ => []
              end) inputs.

(** Whether the last focus or blur input was a focus. *)
Definition lastIsFocus (inputs : list Input) (start : bool) : bool :=
  fold_left (fun b input =>
               match input with
               | FocusIn _ => true
               | BlurOut _ => false
               | Wait _ => b
               end) inputs start.

Definition noNegativeWait (inputs : list Input) : Prop :=
  Forall (fun input => match input with
                       | Wait dt => 0 <= dt
                       | _ => True
                       end) inputs.

(** The scale of the container, the opacity of the ring and the scale of
    the ring at the present progress. *)
Definition containerScale (props : FocusableProps) (st : ControlState) : option Q :=
  option_map (fun i => interpolate i (current (focusProgress st)))
             (containerAnimatedStyle Platform_isTV props).

Definition ringOpacity (props : FocusableProps) (st : ControlState) : option Q :=
  option_map (fun _ => current (focusProgress st))
             (ringAnimatedStyle Platform_isTV props).

Definition ringScale (props : FocusableProps) (st : ControlState) : option Q :=
  option_map (fun i => interpolate i (current (focusProgress st)))
             (ringAnimatedStyle Platform_isTV props).

End Inputs.

Arguments Wait {FocusEvent} dt.

End FocusSession.

(** ** components/ProviderFilter.tsx *)

Module ProviderFilter.

Import Animated Focusable.
Local Open Scope string_scope.

Record Provider : Type := { id : string; name : string }.

Inductive FilterEffect : Type :=
| OnSelect (id : string)
| ScrollToIndex (index : nat) (animated : bool) (viewPosition : Q).

(** The props every chip passes to its [FocusableTouchableOpacity]. *)
Definition chipProps (Platform_isTV : bool) : FocusableProps :=
  {| enableTVFocus := Some Platform_isTV;
     preset := Some TvFocus.pill;
     focusBorderRadius := Some 16%Q;
     focusScale := None;
     focusRingWidth := None;
     onFocus := true;
     onBlur := false;
     focusable := None;
     activeOpacity := None |}.

(** A chip as [renderItem] builds it: whether it carries the selected
    style, its label, and what a press does. *)
Record Chip : Type :=
  { selected : bool; label : string; onPress : list FilterEffect }.

Definition renderItem (selectedProvider : string) (item : Provider) : Chip :=
  {| selected := String.eqb selectedProvider (id item);
     label := name item;
     onPress := [ OnSelect (id item) ] |}.

(** The list is virtualized: of the providers it is given it mounts the
    positions of its choosing, here the positions [mounted] says. *)
Fixpoint mountedFrom (mounted : nat -> bool) (index : nat)
         (providers : list Provider) : list Provider :=
  match providers with
  | [] => []
  | item :: rest =>
      if mounted index
      then item :: mountedFrom mounted (S index) rest
      else mountedFrom mounted (S index) rest
  end.

(** The chips on screen: [renderItem] on each mounted provider. *)
Definition chips (selectedProvider : string) (mounted : nat -> bool)
           (providers : list Provider) : list Chip :=
  map (renderItem selectedProvider) (mountedFrom mounted 0 providers).

(** The [onFocus] prop of the chip at [index]; [listRef] says whether the
    list is mounted.  A failure of [scrollToIndex] is caught and dropped. *)
Definition chipOnFocus (Platform_isTV listRef : bool) (index : nat)
  : list FilterEffect :=
  if negb Platform_isTV then []
  else if listRef then [ ScrollToIndex index true 0.5%Q ] else [].

Section Chips.

Variable FocusEvent : Type.

(** A focus event on the chip at [index]: the control's own handler, and
    the chip's [onFocus] for each call the control makes of it. *)
Definition focusChip (Platform_isTV listRef : bool) (index : nat)
           (e : FocusEvent) (st : ControlState)
  : ControlState * list FilterEffect :=
  let (st', calls) := handleFocus Platform_isTV (chipProps Platform_isTV) e st in
  (st', flat_map (fun c => match c with
                           | CallOnFocus _ => chipOnFocus Platform_isTV listRef index
                           | CallOnBlur _ => []
                           end) calls).

End Chips.

End ProviderFilter.

(** ** components/player/modals/ErrorModal.tsx *)

Module ErrorModal.

Local Open Scope string_scope.

(** The clipboard module after the start of the file: absent on TV, and
    absent when [require] fails. *)
Definition ExpoClipboard (isTV requireWorks : bool) : bool :=
  if negb isTV then requireWorks else false.

Record ErrorModalProps : Type :=
  { showErrorModal : bool; errorDetails : string; onDismiss : bool }.

Inductive ModalEffect : Type :=
| SetShowErrorModal (show : bool)
| OnDismiss
| SetStringAsync (text : string)
| SetCopied (copied : bool)
| SetTimeout (callback : ModalEffect) (ms : Q).

Definition handleClose (props : ErrorModalProps) : list ModalEffect :=
  SetShowErrorModal false :: (if onDismiss props then [ OnDismiss ] else []).

(** [written] says whether the clipboard write resolves; when it rejects,
    what follows the [await] does not run. *)
Definition handleCopy (clipboard written : bool) (props : ErrorModalProps)
  : list ModalEffect :=
  if negb clipboard then []
  else SetStringAsync (errorDetails props) ::
       (if written
        then [ SetCopied true; SetTimeout (SetCopied false) 2000 ]
        else []).

Record ModalView : Type :=
  { modalWidth : Q;
    message : string;
    copyButton : option string;
    dismissPress : list ModalEffect }.

Definition Math_min (a b : Q) : Q := if Qle_bool a b then a else b.

Definition render (clipboard copied : bool) (width : Q) (props : ErrorModalProps)
  : option ModalView :=
  if negb (showErrorModal props) then None
  else Some {| modalWidth := Math_min (width * 0.8) 400;
               message := match errorDetails props with
                          | EmptyString =>
                              "An unknown error occurred during playback."
                          | details => details
                          end;
               copyButton := if clipboard
                             then Some (if copied then "Copied to clipboard"
                                        else "Copy error details")
                             else None;
               dismissPress := handleClose props |}.

End ErrorModal.

(** * Properties *)

(** ** The matcher decides occurrence *)

Module RegExpFacts.

Import JsString RegExp PatternSpec.

Lemma in_allUnits (c : ascii) : In c allUnits.
Proof.
  unfold allUnits. rewrite <- (ascii_nat_embedding c).
  apply in_map, in_seq. pose proof (nat_ascii_bounded c). lia.
Qed.

Lemma forallb_allUnits (f : ascii -> bool) :
  forallb f allUnits = true -> forall c, f c = true.
Proof.
  intros H c. rewrite forallb_forall in H. apply H, in_allUnits.
Qed.

(** On a lower-cased character the comparison of the [i] flag is
    equality up to case. *)
Lemma canonicalize_lower (c p : ascii) :
  N.eqb (canonicalize (lowerUnit c)) (canonicalize p)
  = Ascii.eqb (lowerUnit c) (lowerUnit p).
Proof.
  assert (H : forallb (fun c => forallb (fun p =>
                Bool.eqb (N.eqb (canonicalize (lowerUnit c)) (canonicalize p))
                         (Ascii.eqb (lowerUnit c) (lowerUnit p)))
                allUnits) allUnits = true) by (vm_compute; reflexivity).
  pose proof (forallb_allUnits _ H c) as Hc. cbv beta in Hc.
  apply Bool.eqb_prop. exact (forallb_allUnits _ Hc p).
Qed.

Lemma lineTerminator_lower (c : ascii) :
  lineTerminator (lowerUnit c) = lineTerminator c.
Proof.
  assert (H : forallb (fun c => Bool.eqb (lineTerminator (lowerUnit c))
                                        (lineTerminator c))
                      allUnits = true) by (vm_compute; reflexivity).
  apply Bool.eqb_prop. exact (forallb_allUnits _ H c).
Qed.

(** The acceptance test of the matcher, on the lower-cased character,
    is the relation [Fits] on the character itself. *)
Lemma accepts_lower_Fits (a : CharSet) (c : ascii) :
  accepts a (lowerUnit c) = true <-> Fits a c.
Proof.
  destruct a as [p|]; simpl.
  - rewrite canonicalize_lower, Ascii.eqb_eq. split.
    + intros H. now constructor.
    + intros H. now inversion H.
  - rewrite lineTerminator_lower, negb_true_iff. split.
    + intros H. now constructor.
    + intros H. now inversion H.
Qed.

Lemma matchHere_star (a : CharSet) (re : Pattern) (s : list ascii) :
  matchHere (Star a :: re) s =
  match s with
  | [] => matchHere re []
  | c :: s' => (accepts a c && matchHere (Star a :: re) s') || matchHere re s
  end.
Proof. destruct s; reflexivity. Qed.

(** Completeness of [matchHere]: an instance at the front is found. *)
Lemma matchHere_complete (re : Pattern) (mid : list ascii) :
  Matches re mid ->
  forall post, matchHere re (toLowerCase (mid ++ post)) = true.
Proof.
  induction 1 as [| a c re s Hfit _ IH | a re s _ IH | a c re s Hfit _ IH];
    intros post.
  - reflexivity.
  - simpl. apply accepts_lower_Fits in Hfit. rewrite Hfit. apply IH.
  - rewrite matchHere_star. specialize (IH post).
    destruct (toLowerCase (s ++ post)); [exact IH|].
    rewrite IH. apply orb_true_r.
  - rewrite matchHere_star. simpl.
    apply accepts_lower_Fits in Hfit. rewrite Hfit.
    unfold toLowerCase in IH. now rewrite IH.
Qed.

(** Soundness of [matchHere]: what it finds is an instance at the
    front. *)
Lemma matchHere_sound (re : Pattern) :
  forall s, matchHere re (toLowerCase s) = true ->
            exists mid post, s = mid ++ post /\ Matches re mid.
Proof.
  induction re as [| [a|a] re IH]; intros s H.
  - exists [], s. split; [reflexivity | constructor].
  - destruct s as [| c s]; simpl in H; [discriminate|].
    apply andb_true_iff in H. destruct H as [Hc Hrest].
    apply accepts_lower_Fits in Hc.
    destruct (IH _ Hrest) as (mid & post & -> & Hm).
    exists (c :: mid), post. split; [reflexivity | now constructor].
  - induction s as [| c s IHs].
    + rewrite matchHere_star in H. simpl in H.
      destruct (IH [] H) as (mid & post & E & Hm).
      exists mid, post. split; [exact E | now constructor].
    + rewrite matchHere_star in H. simpl in H.
      apply orb_true_iff in H. destruct H as [H | H].
      * apply andb_true_iff in H. destruct H as [Hc Hrest].
        apply accepts_lower_Fits in Hc.
        destruct (IHs Hrest) as (mid & post & -> & Hm).
        exists (c :: mid), post. split; [reflexivity | now constructor].
      * destruct (IH (c :: s) H) as (mid & post & E & Hm).
        exists mid, post. split; [exact E | now constructor].
Qed.

(** [test] on the lower-cased string decides whether an instance occurs
    somewhere in the string. *)
Lemma test_iff (re : Pattern) (s : list ascii) :
  test re (toLowerCase s) = true <->
  exists pre mid post, s = pre ++ mid ++ post /\ Matches re mid.
Proof.
  split.
  - induction s as [| c s IH]; simpl; intros H.
    + rewrite orb_false_r in H.
      destruct (matchHere_sound re [] H) as (mid & post & E & Hm).
      exists [], mid, post. now split.
    + apply orb_true_iff in H. destruct H as [H | H].
      * destruct (matchHere_sound re (c :: s) H) as (mid & post & E & Hm).
        exists [], mid, post. now split.
      * destruct (IH H) as (pre & mid & post & -> & Hm).
        exists (c :: pre), mid, post. now split.
  - intros (pre & mid & post & -> & Hm).
    induction pre as [| c pre IH].
    + simpl app.
      pose proof (matchHere_complete Hm post) as Hc.
      destruct (mid ++ post); simpl; simpl in Hc; now rewrite Hc.
    + simpl. rewrite IH. apply orb_true_r.
Qed.

End RegExpFacts.

(** ** The classifier *)

Module ClassifierFacts.

Import JsString RegExp PatternSpec RegExpFacts VideoSurface.
Local Open Scope string_scope.

(** Every pattern of the table stays within the syntax [parse] reads. *)
Lemma patterns_plain :
  forallb (fun p => plain (units p)) CODEC_ERROR_PATTERNS = true.
Proof. vm_compute. reflexivity. Qed.

Lemma regex_test_Contains (p s : string) :
  test (parse (units p)) (toLowerCase (units s)) = true <-> Contains p s.
Proof. apply test_iff. Qed.

(** The classifier answers [true] exactly on the strings that contain an
    instance of a pattern of the table. *)
Lemma isCodecError_iff (s : string) :
  isCodecError s = true <->
  exists p, In p CODEC_ERROR_PATTERNS /\ Contains p s.
Proof.
  unfold isCodecError. rewrite existsb_exists.
  split; intros (p & Hin & H); exists p; (split; [exact Hin|]);
    now apply regex_test_Contains.
Qed.

Lemma units_append (a b : string) : units (a ++ b) = (units a ++ units b)%list.
Proof.
  unfold units. induction a as [| c a IH]; simpl; [reflexivity|].
  now rewrite IH.
Qed.

(** Containment survives any text put before and after. *)
Lemma Contains_extend (p s t : string) (pre post : list ascii) :
  units t = (pre ++ units s ++ post)%list -> Contains p s -> Contains p t.
Proof.
  intros Ht (pre' & mid & post' & Hs & Hm).
  exists (pre ++ pre')%list, mid, (post' ++ post)%list.
  split; [|exact Hm].
  rewrite Ht, Hs. now rewrite <- !app_assoc.
Qed.

Lemma isCodecError_extend (s t : string) (pre post : list ascii) :
  units t = (pre ++ units s ++ post)%list ->
  isCodecError s = true -> isCodecError t = true.
Proof.
  intros Ht H. apply isCodecError_iff in H. destruct H as (p & Hin & Hc).
  apply isCodecError_iff. exists p. split; [exact Hin|].
  eapply Contains_extend; eassumption.
Qed.

(** Each part is a piece of the joined string. *)
Lemma join_has_part (parts : list string) (part : string) :
  In part parts ->
  exists pre post, units (join parts) = (pre ++ units part ++ post)%list.
Proof.
  induction parts as [| p rest IH]; intros Hin; [contradiction|].
  destruct rest as [| q rest].
  - destruct Hin as [-> | []]. exists [], []. simpl join.
    now rewrite app_nil_r.
  - change (join (p :: q :: rest)) with (p ++ " " ++ join (q :: rest)).
    rewrite !units_append.
    destruct Hin as [-> | Hin].
    + exists [], (units " " ++ units (join (q :: rest)))%list. reflexivity.
    + destruct (IH Hin) as (pre & post & E). rewrite E.
      exists (units p ++ units " " ++ pre)%list, post.
      now rewrite <- !app_assoc.
Qed.



(** C4. A string in which no pattern of the table occurs is classified
    as an ordinary error; the empty string is one of them; and the
    classifier, a total function, has an answer on every string. *)
Theorem C4_no_occurrence_is_other_error :
  (forall s : string,
      (forall p, In p CODEC_ERROR_PATTERNS -> ~ Contains p s) ->
      isCodecError s = false) /\
  isCodecError "" = false /\
  (forall s : string, exists b : bool, isCodecError s = b).
Proof.
  split; [| split].
  - intros s Hnone. destruct (isCodecError s) eqn:E; [|reflexivity].
    apply isCodecError_iff in E. destruct E as (p & Hin & Hc).
    now destruct (Hnone p Hin).
  - vm_compute. reflexivity.
  - intros s. now exists (isCodecError s).
Qed.

Lemma C4_witness : isCodecError "Network timeout" = false.
Proof.
  apply (proj1 C4_no_occurrence_is_other_error).
  intros p Hin Hc. apply regex_test_Contains in Hc.
  simpl in Hin.
  repeat (destruct Hin as [<- | Hin]; [vm_compute in Hc; discriminate Hc|]).
  exact Hin.
Defined.

(** C5, as stated, fails: [decoder.*error] finds its two words in one
    order of the parts and not in the other. *)
Lemma C5_order_matters :
  ~ (forall parts parts' : list string,
        Permutation parts parts' ->
        isCodecError (join parts) = isCodecError (join parts')).
Proof.
  intros H.
  specialize (H ["decoder"; "error"] ["error"; "decoder"] (perm_swap _ _ _)).
  vm_compute in H. discriminate H.
Qed.

(** C5, amended. When one of the parts is by itself classified as a
    codec error, the joined message is classified as a codec error in
    every order of the parts. *)
Theorem C5_codec_part_in_any_order (parts parts' : list string) :
  Permutation parts parts' ->
  (exists part, In part parts /\ isCodecError part = true) ->
  isCodecError (join parts) = true /\ isCodecError (join parts') = true.
Proof.
  intros Hperm (part & Hin & Hcodec).
  split.
  - destruct (join_has_part _ _ Hin) as (pre & post & E).
    eapply isCodecError_extend; eassumption.
  - pose proof (Permutation_in _ Hperm Hin) as Hin'.
    destruct (join_has_part _ _ Hin') as (pre & post & E).
    eapply isCodecError_extend; eassumption.
Qed.

Lemma C5_witness :
  isCodecError (join ["24003"; "decoder failed"; "at Renderer.run"]) = true /\
  isCodecError (join ["at Renderer.run"; "24003"; "decoder failed"]) = true.
Proof.
  apply C5_codec_part_in_any_order.
  - apply Permutation_sym, (Permutation_cons_append ["24003"; "decoder failed"]).
  - exists "decoder failed". split; [simpl; tauto | vm_compute; reflexivity].
Defined.

End ClassifierFacts.

(** ** The surface: error routing *)

Module SurfaceFacts.

Import JsString VideoSurface Player EventKinds.
Local Open Scope string_scope.

Section Routing.

Variable JSON_stringify : ExoError -> string.

Lemma render_exo (props : Props) :
  useExoPlayerOrDefault props = true ->
  forall ev, deliver JSON_stringify props (FromExo ev) =
             match ev with
             | ExoLoad d => handleExoLoad props d
             | ExoProgress d => handleExoProgress d
             | ExoEnd => handleExoEnd
             | ExoErrorEvent e => handleExoError JSON_stringify props e
             | ExoBuffer b => handleExoBuffer b
             | ExoSeek t => handleExoSeek t
             end.
Proof.
  intros H ev. unfold deliver, render. rewrite H. now destruct ev.
Qed.

Lemma render_mpv (props : Props) :
  useExoPlayerOrDefault props = false ->
  forall ev, deliver JSON_stringify props (FromMpv ev) =
             match ev with
             | MpvLoad d => handleMpvLoad d
             | MpvProgress d => handleMpvProgress d
             | MpvEnd => handleMpvEnd
             | MpvErrorEvent e => handleMpvError e
             | MpvTracksChanged a t =>
                 if onTracksChanged props then [ OnTracksChanged a t ] else []
             end.
Proof.
  intros H ev. unfold deliver, render. rewrite H.
  destruct ev; try reflexivity.
  simpl. now destruct (onTracksChanged props).
Qed.

(** C1. With the ExoPlayer element mounted, an error event whose
    normalized string is classified as a codec error results in the
    call of [onCodecError] (when that optional prop is given) and in no
    call of [onError]; any other error event results in one call of
    [onError] with the normalized string and in no call of
    [onCodecError].  The payload with only
    [errorCode: "MediaCodecVideoDecoderException"] is of the first
    kind. *)
Theorem C1_exo_error_routing (props : Props) (error : ExoError) :
  useExoPlayerOrDefault props = true ->
  let calls := deliver JSON_stringify props (FromExo (ExoErrorEvent error)) in
  let errorString := extractErrorString JSON_stringify error in
  (isCodecError errorString = true ->
   calls = (if onCodecError props then [ OnCodecError ] else []) /\
   forall msg, ~ In (OnError msg) calls) /\
  (isCodecError errorString = false ->
   calls = [ OnError errorString ] /\ ~ In OnCodecError calls) /\
  (In OnCodecError calls -> isCodecError errorString = true) /\
  (forall msg, In (OnError msg) calls ->
               isCodecError errorString = false /\ msg = errorString) /\
  deliver JSON_stringify props
          (FromExo (ExoErrorEvent
                      (ErrorObject
                         (Some (ErrorInfo None
                                  (Some "MediaCodecVideoDecoderException")))
                         None None)))
  = (if onCodecError props then [ OnCodecError ] else []).
Proof.
  intros Hexo calls errorString.
  assert (Hcalls : calls = handleExoError JSON_stringify props error)
    by (subst calls; now rewrite render_exo).
  unfold handleExoError in Hcalls. fold errorString in Hcalls.
  assert (Hlast : deliver JSON_stringify props
            (FromExo (ExoErrorEvent
                        (ErrorObject
                           (Some (ErrorInfo None
                                    (Some "MediaCodecVideoDecoderException")))
                           None None)))
          = (if onCodecError props then [ OnCodecError ] else []))
    by (rewrite render_exo by exact Hexo; reflexivity).
  clearbody calls errorString. subst calls.
  assert (Hcodec : forall msg,
             ~ In (OnError msg) (if onCodecError props then [ OnCodecError ] else [])).
  { intros msg Hin. destruct (onCodecError props); simpl in Hin.
    - destruct Hin as [Hin | []]. discriminate Hin.
    - exact Hin. }
  assert (Hother : ~ In OnCodecError [ OnError errorString ]).
  { intros [Hin | []]. discriminate Hin. }
  destruct (isCodecError errorString).
  - split; [intros _; split; [reflexivity | exact Hcodec]|].
    split; [intros E; discriminate E|].
    split; [reflexivity|].
    split; [|exact Hlast].
    intros msg Hin. now destruct (Hcodec msg).
  - split; [intros E; discriminate E|].
    split; [intros _; split; [reflexivity | exact Hother]|].
    split; [intros Hin; now destruct Hother|].
    split; [|exact Hlast].
    intros msg [Hin | []]. injection Hin as <-. now split.
Qed.

End Routing.

Lemma C1_witness :
  let props := {| useExoPlayer := None; onCodecError := true;
                  onTracksChanged := false |} in
  let event := FromExo (ExoErrorEvent
                          (ErrorObject
                             (Some (ErrorInfo None
                                      (Some "MediaCodecVideoDecoderException")))
                             None None)) in
  deliver stringifyStub props event = [ OnCodecError ] /\
  forall msg, ~ In (OnError msg) (deliver stringifyStub props event).
Proof.
  intros props event.
  apply (proj1 (@C1_exo_error_routing stringifyStub props
                  (ErrorObject
                     (Some (ErrorInfo None
                              (Some "MediaCodecVideoDecoderException")))
                     None None) eq_refl)).
  vm_compute. reflexivity.
Defined.

(** *** Sessions of error events *)

Section Sessions.

Variable JSON_stringify : ExoError -> string.

Lemma react_keeps_fallback (st : Session) (c : Call) :
  selection st = fallbackEngine -> selection (react st c) = fallbackEngine.
Proof.
  intros H. destruct c; simpl; try exact H.
  unfold engineFallback. now destruct (fallbackDone st).
Qed.

Lemma fold_react_keeps_fallback (calls : list Call) :
  forall st, selection st = fallbackEngine ->
             selection (fold_left react calls st) = fallbackEngine.
Proof.
  induction calls as [| c calls IH]; intros st H; simpl; [exact H|].
  apply IH, react_keeps_fallback, H.
Qed.

Lemma step_keeps_fallback (st : Session) (ev : EngineEvent) :
  selection st = fallbackEngine ->
  selection (fst (step JSON_stringify st ev)) = fallbackEngine.
Proof. intros H. simpl. now apply fold_react_keeps_fallback. Qed.

Lemma transitions_fallback (evs : list EngineEvent) :
  forall st, selection st = fallbackEngine ->
             transitions JSON_stringify st evs = 0%nat.
Proof.
  induction evs as [| ev evs IH]; intros st H; [reflexivity|].
  cbn [transitions].
  rewrite (IH _ (step_keeps_fallback st ev H)).
  unfold isTransition. now rewrite H.
Qed.

Lemma transitions_le_1 (evs : list EngineEvent) :
  forall st, (transitions JSON_stringify st evs <= 1)%nat.
Proof.
  induction evs as [| ev evs IH]; intros st; [simpl; lia|].
  cbn [transitions].
  destruct (isTransition st (fst (step JSON_stringify st ev))) eqn:E.
  - unfold isTransition in E.
    destruct (selection st); [|discriminate E].
    destruct (selection (fst (step JSON_stringify st ev))) eqn:E1;
      [discriminate E|].
    rewrite (transitions_fallback evs _ E1). lia.
  - specialize (IH (fst (step JSON_stringify st ev))). lia.
Qed.

Lemma step_mpv_error (st : Session) (e : string) :
  selection st = fallbackEngine ->
  step JSON_stringify st (FromMpv (MpvErrorEvent e)) = (st, [ OnError e ]).
Proof.
  intros H. unfold step.
  rewrite render_mpv by (unfold surfaceProps, useExoPlayerOrDefault; simpl;
                         now rewrite H).
  reflexivity.
Qed.

Lemma step_exo_codec_error (e : ExoError) :
  isCodecError (extractErrorString JSON_stringify e) = true ->
  step JSON_stringify initial (FromExo (ExoErrorEvent e))
  = ({| selection := fallbackEngine; fallbackDone := true |},
     [ OnCodecError ]).
Proof.
  intros H. unfold step.
  rewrite render_exo by reflexivity.
  unfold handleExoError. rewrite H. reflexivity.
Qed.

(** C2. Along any sequence of engine events the selection moves from
    the primary to the fallback engine at most once.  Once the fallback
    engine is selected, an error it reports, codec-classified or not,
    leaves the selection alone and is handed to [onError] as it is.  In
    particular, of two codec-classified errors in a row on a fresh
    session, the first switches the engine and the second reaches
    [onError]. *)
Theorem C2_fallback_at_most_once :
  (forall st evs, (transitions JSON_stringify st evs <= 1)%nat) /\
  (forall st e,
      selection st = fallbackEngine ->
      step JSON_stringify st (FromMpv (MpvErrorEvent e)) = (st, [ OnError e ])) /\
  (forall e1 e2,
      isCodecError (extractErrorString JSON_stringify e1) = true ->
      isCodecError e2 = true ->
      let session := [ FromExo (ExoErrorEvent e1); FromMpv (MpvErrorEvent e2) ] in
      run JSON_stringify initial session
      = ({| selection := fallbackEngine; fallbackDone := true |},
         [ OnCodecError; OnError e2 ]) /\
      transitions JSON_stringify initial session = 1%nat).
Proof.
  split; [|split].
  - intros st evs. apply transitions_le_1.
  - apply step_mpv_error.
  - intros e1 e2 H1 _ session. subst session.
    cbn [run transitions].
    rewrite (step_exo_codec_error e1 H1).
    rewrite step_mpv_error by reflexivity.
    split; reflexivity.
Qed.

End Sessions.

Lemma C2_witness :
  let session := [ FromExo (ExoErrorEvent (ErrorString "Decoder init failed: codec error"));
                   FromMpv (MpvErrorEvent "decoder failed") ] in
  run stringifyStub initial session
  = ({| selection := fallbackEngine; fallbackDone := true |},
     [ OnCodecError; OnError "decoder failed" ]) /\
  transitions stringifyStub initial session = 1%nat.
Proof.
  intros session.
  apply (proj2 (proj2 (C2_fallback_at_most_once stringifyStub))).
  - vm_compute. reflexivity.
  - vm_compute. reflexivity.
Defined.

(** *** Events other than errors *)


Section Forwarding.

Variable JSON_stringify : ExoError -> string.




(** C10. With the MPV element mounted, every [onProgress] call of the
    surface carries a playable duration equal to its current time. *)
Theorem C10_mpv_progress_playable (props : Props) (ev : EngineEvent)
        (data : ProgressPayload) :
  useExoPlayerOrDefault props = false ->
  In (OnProgress data) (deliver JSON_stringify props ev) ->
  playableDuration data = currentTime data.
Proof.
  intros Hengine Hin. destruct ev as [ev | ev].
  - unfold deliver, render in Hin. rewrite Hengine in Hin. destruct Hin.
  - rewrite render_mpv in Hin by exact Hengine.
    destruct ev; simpl in Hin;
      try (destruct Hin as [Hin | []]; try discriminate Hin);
      try contradiction.
    + injection Hin as <-. reflexivity.
    + destruct (onTracksChanged props); simpl in Hin;
        [destruct Hin as [Hin | []]; discriminate Hin | contradiction].
Qed.

End Forwarding.


Lemma C10_witness :
  playableDuration {| currentTime := 12.5; playableDuration := 12.5 |}
  = currentTime {| currentTime := 12.5; playableDuration := 12.5 |}.
Proof.
  apply (@C10_mpv_progress_playable stringifyStub
           {| useExoPlayer := Some false; onCodecError := true;
              onTracksChanged := true |}
           (FromMpv (MpvProgress {| mpvCurrentTime := 12.5;
                                    mpvProgressDuration := 5400 |}))).
  - reflexivity.
  - simpl. left. reflexivity.
Defined.

End SurfaceFacts.

(** ** Focus presets and focusable controls *)

Module FocusFacts.

Import TvFocus Animated Focusable.
Local Open Scope Q_scope.

(** C9. The preset table gives card 1.05/3/16, poster 1.06/3/12, pill
    1.04/3/999, button 1.04/3/18, icon 1.06/3/999 and listRow 1.03/3/14
    for scale, ring width and border radius; a control with neither a
    preset nor overrides resolves to scale 1.06, ring width 3 and border
    radius 12. *)
Theorem C9_presets_and_defaults :
  (forall name,
      let row := tvFocusPresets name in
      (TvFocus.focusScale row, TvFocus.focusRingWidth row,
       TvFocus.focusBorderRadius row)
      = match name with
        | card => (105 # 100, 3 # 1, 16 # 1)
        | poster => (106 # 100, 3 # 1, 12 # 1)
        | pill => (104 # 100, 3 # 1, 999 # 1)
        | button => (104 # 100, 3 # 1, 18 # 1)
        | icon => (106 # 100, 3 # 1, 999 # 1)
        | listRow => (103 # 100, 3 # 1, 14 # 1)
        end) /\
  (forall props,
      preset props = None ->
      Focusable.focusScale props = None ->
      Focusable.focusRingWidth props = None ->
      Focusable.focusBorderRadius props = None ->
      resolvedScale props = 106 # 100 /\
      resolvedRingWidth props = 3 # 1 /\
      resolvedBorderRadius props = 12 # 1).
Proof.
  split.
  - intros name. destruct name; reflexivity.
  - intros props Hp Hs Hw Hr.
    unfold resolvedScale, resolvedRingWidth, resolvedBorderRadius,
      resolvedPreset, resolve.
    rewrite Hp, Hs, Hw, Hr. repeat split.
Qed.

Lemma C9_witness :
  let props := {| enableTVFocus := Some true; preset := None;
                  Focusable.focusBorderRadius := None;
                  Focusable.focusScale := None;
                  Focusable.focusRingWidth := None;
                  onFocus := false; onBlur := false;
                  focusable := None; activeOpacity := None |} in
  resolvedScale props = 106 # 100 /\
  resolvedRingWidth props = 3 # 1 /\
  resolvedBorderRadius props = 12 # 1.
Proof.
  intros props.
  apply (proj2 C9_presets_and_defaults props); reflexivity.
Defined.

Section Controls.

Variable FocusEvent : Type.
Variable Platform_isTV : bool.

(** C7. With focus visuals disabled, neither control renders a scale
    transform, a focus ring, a shadow or a highlight, whatever its
    state; and a focus or blur event leaves the state as it was and
    does nothing but call the [onFocus] or [onBlur] prop, when given,
    with the event. *)
Theorem C7_disabled_is_inert (props : FocusableProps) (st : ControlState)
        (e : FocusEvent) :
  enabled Platform_isTV props = false ->
  (forall render,
      render = renderPressable Platform_isTV \/
      render = renderTouchableOpacity Platform_isTV ->
      scaleTransform (render props st) = None /\
      ring (render props st) = None /\
      shadow (render props st) = false /\
      highlight (render props st) = None) /\
  handleFocus Platform_isTV props e st
  = (st, if onFocus props then [ CallOnFocus e ] else []) /\
  handleBlur Platform_isTV props e st
  = (st, if onBlur props then [ CallOnBlur e ] else []).
Proof.
  intros Hoff. split; [|split].
  - intros render [-> | ->].
    + unfold renderPressable, containerAnimatedStyle. simpl.
      rewrite Hoff, andb_false_r. repeat split.
    + unfold renderTouchableOpacity. rewrite Hoff. simpl. repeat split.
  - unfold handleFocus. now rewrite Hoff.
  - unfold handleBlur. now rewrite Hoff.
Qed.

Lemma advance_completes (v : Value) (a : Timing) (dt : Q) :
  running v = Some a ->
  elapsed a == 0 ->
  duration a <= dt ->
  advance dt v = {| current := toValue a; running := None |}.
Proof.
  intros Hrun Hzero Hle. unfold advance. rewrite Hrun.
  assert (Hb : Qle_bool (duration a) (elapsed a + dt) = true).
  { apply Qle_bool_iff. rewrite Hzero, Qplus_0_l. exact Hle. }
  now rewrite Hb.
Qed.

(** C8. On a control with focus visuals enabled, a focus event followed
    by a blur event, with any time [dt] in between (less than the 140
    ms of the transition or not), leaves the control unfocused with a
    timing of 140 ms under way towards 0, which leaves from the
    progress reached at the blur; 140 ms or more later the progress is
    0, and it stays 0 from then on. *)
Theorem C8_focus_then_blur_returns_to_zero
        (props : FocusableProps) (st : ControlState)
        (e1 e2 : FocusEvent) (dt : Q) :
  enabled Platform_isTV props = true ->
  let focused := fst (handleFocus Platform_isTV props e1 st) in
  let atBlur := elapse dt focused in
  let blurred := fst (handleBlur Platform_isTV props e2 atBlur) in
  isFocused blurred = false /\
  running (focusProgress blurred)
  = Some {| fromValue := current (focusProgress atBlur); toValue := 0;
            duration := 140; elapsed := 0 |} /\
  target (focusProgress blurred) = 0 /\
  forall later,
    140 <= later ->
    focusProgress (elapse later blurred) = newValue 0 /\
    forall more,
      focusProgress (elapse more (elapse later blurred)) = newValue 0.
Proof.
  intros Hon focused atBlur blurred.
  assert (Hrun : running (focusProgress blurred)
                 = Some {| fromValue := current (focusProgress atBlur);
                           toValue := 0; duration := 140; elapsed := 0 |}).
  { subst blurred. unfold handleBlur. rewrite Hon. reflexivity. }
  split; [|split; [exact Hrun | split]].
  - subst blurred. unfold handleBlur. rewrite Hon. reflexivity.
  - unfold target. now rewrite Hrun.
  - intros later Hlater.
    assert (Hdone : focusProgress (elapse later blurred) = newValue 0).
    { unfold elapse; cbn [focusProgress].
      rewrite (advance_completes _ Hrun); [reflexivity | reflexivity | exact Hlater]. }
    split; [exact Hdone|].
    intros more. unfold elapse at 1; cbn [focusProgress].
    rewrite Hdone. reflexivity.
Qed.

End Controls.

Lemma C7_witness :
  let props := {| enableTVFocus := Some false; preset := Some poster;
                  Focusable.focusBorderRadius := None;
                  Focusable.focusScale := None;
                  Focusable.focusRingWidth := None;
                  onFocus := true; onBlur := false;
                  focusable := None; activeOpacity := None |} in
  handleFocus true props 7%nat mount = (mount, [ CallOnFocus 7%nat ]).
Proof.
  intros props.
  apply (proj1 (proj2 (@C7_disabled_is_inert nat true props mount 7%nat eq_refl))).
Defined.

Lemma C8_witness :
  let props := {| enableTVFocus := None; preset := Some card;
                  Focusable.focusBorderRadius := None;
                  Focusable.focusScale := None;
                  Focusable.focusRingWidth := None;
                  onFocus := false; onBlur := false;
                  focusable := None; activeOpacity := None |} in
  let blurred :=
    fst (handleBlur true props 2%nat
           (elapse 70 (fst (handleFocus true props 1%nat mount)))) in
  focusProgress (elapse 140 blurred) = newValue 0.
Proof.
  intros props blurred.
  apply (proj2 (proj2 (proj2
           (@C8_focus_then_blur_returns_to_zero nat true props mount
              1%nat 2%nat 70 eq_refl))) 140).
  apply Qle_refl.
Defined.

End FocusFacts.


(** ** More on the classifier *)

Module ClassifierExtras.

Import JsString RegExp PatternSpec RegExpFacts VideoSurface ClassifierFacts.
Import PatternTable.
Local Open Scope string_scope.

(** X1. A message that contains a codec-classified message is itself
    classified as a codec error: text before and after never hides a
    match. *)
Theorem X1_codec_error_survives_context (pre s post : string) :
  isCodecError s = true -> isCodecError (pre ++ s ++ post) = true.
Proof.
  apply (@isCodecError_extend s (pre ++ s ++ post) (units pre) (units post)).
  now rewrite !units_append.
Qed.

Lemma X1_witness :
  isCodecError ("[ExoPlayer] " ++ "Decoder failed" ++ ": OMX.qcom.video") = true.
Proof.
  apply X1_codec_error_survives_context. vm_compute. reflexivity.
Defined.

Lemma Fits_keeps_line (a : CharSet) (c : ascii) :
  match a with Lit p => lineTerminator p = false | Dot => True end ->
  Fits a c -> lineTerminator c = false.
Proof.
  intros Ha Hfit. destruct Hfit as [p c E | c E]; [|exact E].
  rewrite <- (lineTerminator_lower c), E, lineTerminator_lower. exact Ha.
Qed.

(** An instance of a pattern without line terminators has none either. *)
Lemma Matches_one_line (re : Pattern) (mid : list ascii) :
  Matches re mid -> oneLine re = true ->
  Forall (fun c => lineTerminator c = false) mid.
Proof.
  induction 1 as [| a c re s Hfit _ IH | a re s _ IH | a c re s Hfit _ IH];
    intros Hre.
  - constructor.
  - simpl in Hre. apply andb_true_iff in Hre. destruct Hre as [Ha Hre].
    constructor; [|now apply IH].
    apply (@Fits_keeps_line a c); [|exact Hfit].
    destruct a; [now apply negb_true_iff in Ha | exact I].
  - simpl in Hre. apply andb_true_iff in Hre. now apply IH.
  - constructor; [|now apply IH].
    simpl in Hre. apply andb_true_iff in Hre. destruct Hre as [Ha _].
    apply (@Fits_keeps_line a c); [|exact Hfit].
    destruct a; [now apply negb_true_iff in Ha | exact I].
Qed.

Lemma prefix_before_break (mid post a b : list ascii) (c : ascii) :
  Forall (fun x => lineTerminator x = false) mid ->
  lineTerminator c = true ->
  (mid ++ post = a ++ c :: b)%list ->
  exists post', a = (mid ++ post')%list.
Proof.
  intros Hmid Hc. revert a.
  induction Hmid as [| m mid Hm _ IH]; intros a E.
  - now exists a.
  - destruct a as [| x a]; simpl in E; injection E as <- E.
    + congruence.
    + destruct (IH a E) as (post' & ->). now exists post'.
Qed.

(** A piece without line terminators lies on one side of a line break. *)
Lemma piece_beside_break (pre mid post a b : list ascii) (c : ascii) :
  Forall (fun x => lineTerminator x = false) mid ->
  lineTerminator c = true ->
  (pre ++ mid ++ post = a ++ c :: b)%list ->
  (exists pre' post', a = (pre' ++ mid ++ post')%list) \/
  (exists pre' post', b = (pre' ++ mid ++ post')%list).
Proof.
  intros Hmid Hc. revert a.
  induction pre as [| x pre IH]; intros a E.
  - left. destruct (@prefix_before_break mid post a b c Hmid Hc E) as (post' & ->).
    now exists [], post'.
  - destruct a as [| y a]; simpl in E; injection E as <- E.
    + right. now exists pre, post.
    + destruct (IH a E) as [(pre' & post' & ->) | (pre' & post' & ->)].
      * left. now exists (x :: pre'), post'.
      * right. now exists pre', post'.
Qed.

Lemma table_one_line :
  forallb (fun p => oneLine (parse (units p))) CODEC_ERROR_PATTERNS = true.
Proof. vm_compute. reflexivity. Qed.

(** X2. No pattern of the table matches across a line break: a message of
    two parts separated by a line feed or a carriage return is a codec
    error exactly when one of the two parts is. *)
Theorem X2_classification_is_per_line (a b : string) (c : ascii) :
  lineTerminator c = true ->
  isCodecError (a ++ String c b) = isCodecError a || isCodecError b.
Proof.
  intros Hc. apply Bool.eq_true_iff_eq. rewrite orb_true_iff. split.
  - intros H. apply isCodecError_iff in H.
    destruct H as (p & Hin & pre & mid & post & E & Hm).
    pose proof table_one_line as Hline. rewrite forallb_forall in Hline.
    pose proof (Matches_one_line Hm (Hline p Hin)) as Hmid.
    rewrite units_append in E. change (units (String c b)) with (c :: units b) in E.
    symmetry in E.
    destruct (@piece_beside_break pre mid post _ _ c Hmid Hc E)
      as [(pre' & post' & Ea) | (pre' & post' & Eb)].
    + left. apply isCodecError_iff. exists p. split; [exact Hin|].
      now exists pre', mid, post'.
    + right. apply isCodecError_iff. exists p. split; [exact Hin|].
      now exists pre', mid, post'.
  - intros [H | H].
    + apply (@isCodecError_extend a _ [] (c :: units b)); [|exact H].
      now rewrite units_append.
    + apply (@isCodecError_extend b _ (units a ++ [c])%list []); [|exact H].
      rewrite units_append, app_nil_r, <- app_assoc. reflexivity.
Qed.

Lemma X2_witness :
  isCodecError ("decoder" ++ String "010"%char "error") = false.
Proof.
  rewrite (@X2_classification_is_per_line "decoder" "error" "010"%char).
  - vm_compute. reflexivity.
  - reflexivity.
Defined.

(** An instance of two patterns in a row is an instance of the first
    followed by an instance of the second. *)
Lemma Matches_app_inv (re1 re2 : Pattern) :
  forall s, Matches (re1 ++ re2)%list s ->
            exists s1 s2, s = (s1 ++ s2)%list /\ Matches re1 s1 /\ Matches re2 s2.
Proof.
  induction re1 as [| t re1 IH]; intros s H.
  - exists [], s. repeat split; [constructor | exact H].
  - simpl in H. remember (t :: re1 ++ re2)%list as re eqn:Ere.
    induction H as [| a c re s Hfit Hm _ | a re s Hm _ | a c re s Hfit Hm IHm];
      try discriminate Ere.
    + injection Ere as <- ->.
      destruct (IH _ Hm) as (s1 & s2 & -> & H1 & H2).
      exists (c :: s1), s2. repeat split; [now constructor | exact H2].
    + injection Ere as <- ->.
      destruct (IH _ Hm) as (s1 & s2 & -> & H1 & H2).
      exists s1, s2. repeat split; [now constructor | exact H2].
    + destruct (IHm Ere) as (s1 & s2 & -> & H1 & H2).
      injection Ere as <- ->.
      exists (c :: s1), s2. repeat split; [now constructor | exact H2].
Qed.

(** A pattern that ends in another pattern occurs only where that other
    pattern occurs. *)
Lemma Contains_tail_pattern (p q s : string) (front : Pattern) :
  parse (units p) = (front ++ parse (units q))%list ->
  Contains p s -> Contains q s.
Proof.
  intros Ep (pre & mid & post & E & Hm). rewrite Ep in Hm.
  destruct (Matches_app_inv _ _ Hm) as (s1 & s2 & -> & _ & H2).
  exists (pre ++ s1)%list, s2, post. split; [|exact H2].
  rewrite E. now rewrite <- !app_assoc.
Qed.

(** A pattern that begins with another pattern occurs only where that
    other pattern occurs. *)
Lemma Contains_head_pattern (p q s : string) (back : Pattern) :
  parse (units p) = (parse (units q) ++ back)%list ->
  Contains p s -> Contains q s.
Proof.
  intros Ep (pre & mid & post & E & Hm). rewrite Ep in Hm.
  destruct (Matches_app_inv _ _ Hm) as (s1 & s2 & -> & H1 & _).
  exists pre, s1, (s2 ++ post)%list. split; [|exact H1].
  rewrite E. now rewrite <- !app_assoc.
Qed.

Lemma table_test_iff (table : list string) (s : string) :
  existsb (fun pattern => test (parse (units pattern)) (toLowerCase (units s)))
          table = true <->
  exists p, In p table /\ Contains p s.
Proof.
  rewrite existsb_exists.
  split; intros (p & Hin & H); exists p; (split; [exact Hin|]);
    now apply regex_test_Contains.
Qed.

Ltac in_table := simpl; solve [repeat (first [left; reflexivity | right])].

(** X3. Three entries of the table add nothing: whatever
    [no_exceeds_capabilities], [format.no_decoder] or
    [mediacodecvideodecoderexception] matches is already matched by
    [exceeds_capabilities], [no_decoder] or [mediacodecvideodecoder], so
    the classifier answers the same with the seventeen other entries
    alone. *)
Theorem X3_three_patterns_are_subsumed (s : string) :
  isCodecError s =
  existsb (fun pattern => test (parse (units pattern)) (toLowerCase (units s)))
          SHORTER_PATTERNS.
Proof.
  apply Bool.eq_true_iff_eq. rewrite table_test_iff, isCodecError_iff.
  split; intros (p & Hin & Hc).
  - simpl in Hin.
    repeat (destruct Hin as [<- | Hin];
            [first
               [ exists "exceeds_capabilities"; split; [in_table|];
                 first [ exact Hc
                       | apply (@Contains_tail_pattern
                                  "no_exceeds_capabilities" _ s
                                  (parse (units "no_"))); [reflexivity | exact Hc] ]
               | exists "no_decoder"; split; [in_table|];
                 first [ exact Hc
                       | apply (@Contains_tail_pattern
                                  "format.no_decoder" _ s
                                  (parse (units "format."))); [reflexivity | exact Hc] ]
               | exists "mediacodecvideodecoder"; split; [in_table|];
                 first [ exact Hc
                       | apply (@Contains_head_pattern
                                  "mediacodecvideodecoderexception" _ s
                                  (parse (units "exception")));
                         [reflexivity | exact Hc] ]
               | eexists; split; [|exact Hc]; in_table ]
            |]).
    contradiction.
  - exists p. split; [|exact Hc].
    simpl in Hin.
    repeat (destruct Hin as [<- | Hin]; [in_table|]).
    contradiction.
Qed.

End ClassifierExtras.


(** ** More on the surface *)

Module SurfaceExtras.

Import JsString VideoSurface EventKinds ClassifierFacts SurfaceFacts.
Local Open Scope string_scope.

Section Routing.

Variable JSON_stringify : ExoError -> string.

(** X4. A codec signature in any one of the extracted parts (the error
    text, [errorString], [errorCode], the joined native stack or
    [message]) sends the whole event down the codec branch, whatever the
    other parts say: [onCodecError] is called when given, [onError] is
    not. *)
Theorem X4_one_codec_part_suffices (props : Props) (error : ExoError)
        (part : string) :
  In part (errorParts error) ->
  isCodecError part = true ->
  handleExoError JSON_stringify props error
  = (if onCodecError props then [ OnCodecError ] else []).
Proof.
  intros Hin Hpart. unfold handleExoError, extractErrorString.
  destruct (errorParts error) as [| p0 rest] eqn:E; [contradiction|].
  cbn [List.length Nat.ltb Nat.leb].
  destruct (join_has_part _ _ Hin) as (pre & post & Ej).
  now rewrite (@isCodecError_extend part _ pre post Ej Hpart).
Qed.

(** X5. The surface never crosses its wires.  A call it makes comes from
    an event of the mounted engine; a load, progress, seek, end or buffer
    call comes from an event of that same kind; [onCodecError] comes from
    an ExoPlayer error only; [onError] from an error event; and
    [onTracksChanged] from an ExoPlayer load or from the MPV engine's own
    track notification. *)
Theorem X5_calls_match_their_event (props : Props) (ev : EngineEvent)
        (c : Call) :
  In c (deliver JSON_stringify props ev) ->
  fromActiveEngine props ev = true /\
  (forall k, callKind c = Some k -> eventKind ev = Some k) /\
  (c = OnCodecError -> exists e, ev = FromExo (ExoErrorEvent e)) /\
  (forall msg, c = OnError msg ->
               (exists e, ev = FromExo (ExoErrorEvent e)) \/
               ev = FromMpv (MpvErrorEvent msg)) /\
  (forall a t, c = OnTracksChanged a t ->
               (exists d, ev = FromExo (ExoLoad d)) \/
               ev = FromMpv (MpvTracksChanged a t)).
Proof.
  intros Hin.
  destruct (useExoPlayerOrDefault props) eqn:Hengine.
  - destruct ev as [ev | ev].
    2:{ unfold deliver, render in Hin. rewrite Hengine in Hin. destruct Hin. }
    rewrite render_exo in Hin by exact Hengine.
    split; [exact Hengine|].
    destruct ev as [d | d | | e | b | t]; simpl in Hin.
    + unfold handleExoLoad in Hin. apply in_app_or in Hin.
      destruct Hin as [Hin | [<- | []]].
      * destruct (onTracksChanged props && _); [|destruct Hin].
        destruct Hin as [<- | []].
        repeat split; try discriminate. intros a t _. left. now exists d.
      * repeat split; try discriminate. intros k E. now injection E as <-.
    + destruct Hin as [<- | []].
      repeat split; try discriminate. intros k E. now injection E as <-.
    + destruct Hin as [<- | []].
      repeat split; try discriminate. intros k E. now injection E as <-.
    + unfold handleExoError in Hin.
      destruct (isCodecError _).
      * destruct (onCodecError props); [|destruct Hin].
        destruct Hin as [<- | []].
        repeat split; try discriminate. intros _. now exists e.
      * destruct Hin as [<- | []].
        repeat split; try discriminate. intros msg _. left. now exists e.
    + destruct Hin as [<- | []].
      repeat split; try discriminate. intros k E. now injection E as <-.
    + destruct Hin as [<- | []].
      repeat split; try discriminate. intros k E. now injection E as <-.
  - destruct ev as [ev | ev].
    1:{ unfold deliver, render in Hin. rewrite Hengine in Hin. destruct Hin. }
    rewrite render_mpv in Hin by exact Hengine.
    split; [simpl; now rewrite Hengine|].
    destruct ev as [d | d | | e | a t]; simpl in Hin;
      try contradiction.
    + destruct Hin as [<- | []].
      repeat split; try discriminate. intros k E. now injection E as <-.
    + destruct Hin as [<- | []].
      repeat split; try discriminate. intros k E. now injection E as <-.
    + destruct Hin as [<- | []].
      repeat split; try discriminate. intros k E. now injection E as <-.
    + destruct Hin as [<- | []].
      repeat split; try discriminate. intros msg E. right. now injection E as <-.
    + destruct (onTracksChanged props); [|destruct Hin].
      destruct Hin as [<- | []].
      repeat split; try discriminate.
      intros a' t' E. right. now injection E as <- <-.
Qed.

(** X6. While the MPV element is mounted the surface never calls
    [onCodecError], [onSeek] or [onBuffer], whatever either engine
    reports. *)
Theorem X6_mpv_never_calls (props : Props) (ev : EngineEvent) (c : Call) :
  useExoPlayerOrDefault props = false ->
  In c (deliver JSON_stringify props ev) ->
  c <> OnCodecError /\
  callKind c <> Some SeekKind /\
  callKind c <> Some BufferKind.
Proof.
  intros Hengine Hin. destruct ev as [ev | ev].
  - unfold deliver, render in Hin. rewrite Hengine in Hin. destruct Hin.
  - rewrite render_mpv in Hin by exact Hengine.
    destruct ev; simpl in Hin; try contradiction;
      try (destruct Hin as [<- | []]; repeat split; discriminate).
    destruct (onTracksChanged props); [|destruct Hin].
    destruct Hin as [<- | []]. repeat split; discriminate.
Qed.

End Routing.

Lemma X4_witness :
  handleExoError stringifyStub
    {| useExoPlayer := None; onCodecError := true; onTracksChanged := false |}
    (ErrorObject (Some (ErrorInfo (Some "Source error") (Some "24003")))
                 (Some [ "at MediaCodecRenderer.render";
                         "caused by decoder_exception" ])
                 (Some "Playback stopped"))
  = [ OnCodecError ].
Proof.
  refine (@X4_one_codec_part_suffices stringifyStub
            {| useExoPlayer := None; onCodecError := true;
               onTracksChanged := false |}
            _ "at MediaCodecRenderer.render caused by decoder_exception" _ _).
  - simpl. tauto.
  - vm_compute. reflexivity.
Defined.

Lemma X5_witness :
  eventKind (FromMpv (MpvProgress {| mpvCurrentTime := 3;
                                     mpvProgressDuration := 90 |}))
  = Some ProgressKind.
Proof.
  apply (proj1 (proj2
    (@X5_calls_match_their_event stringifyStub
       {| useExoPlayer := Some false; onCodecError := true;
          onTracksChanged := true |}
       (FromMpv (MpvProgress {| mpvCurrentTime := 3;
                                mpvProgressDuration := 90 |}))
       (OnProgress {| currentTime := 3; playableDuration := 3 |})
       (or_introl eq_refl)))).
  reflexivity.
Defined.

Lemma X6_witness :
  OnError "decoder failed" <> OnCodecError.
Proof.
  apply (@X6_mpv_never_calls stringifyStub
           {| useExoPlayer := Some false; onCodecError := true;
              onTracksChanged := true |}
           (FromMpv (MpvErrorEvent "decoder failed"))).
  - reflexivity.
  - simpl. left. reflexivity.
Defined.

(** *** Tracks of an ExoPlayer load *)

Lemma mapTracksFrom_length (ts : list RawTrack) :
  forall k, List.length (mapTracksFrom k ts) = List.length ts.
Proof.
  induction ts as [| t ts IH]; intros k; simpl; [reflexivity|].
  now rewrite IH.
Qed.

Lemma mapTracksFrom_nth (ts : list RawTrack) :
  forall k i t, nth_error ts i = Some t ->
                nth_error (mapTracksFrom k ts) i = Some (mapTrack t (k + i)).
Proof.
  induction ts as [| t0 ts IH]; intros k i t H.
  - destruct i; discriminate H.
  - destruct i as [| i]; simpl in *.
    + injection H as ->. now rewrite Nat.add_0_r.
    + rewrite (IH (S k) i t H). f_equal. f_equal. lia.
Qed.

(** X7. The track lists handed to [onTracksChanged] follow the engine's
    lists entry by entry: same length, and the entry at position [i] is
    made from the engine's track at position [i], with the engine's
    [index] as id when it gives one and the position [i] otherwise. *)
Theorem X7_tracks_keep_their_place (ts : list RawTrack) :
  List.length (mapTracks (Some ts)) = List.length ts /\
  forall i t,
    nth_error ts i = Some t ->
    exists info,
      nth_error (mapTracks (Some ts)) i = Some info /\
      trackLanguage info = language t /\
      id info = match index t with
                | Some n => n
                | None => inject_Z (Z.of_nat i)
                end.
Proof.
  split.
  - apply mapTracksFrom_length.
  - intros i t H. exists (mapTrack t i). split.
    + apply (mapTracksFrom_nth ts 0 i H).
    + split; reflexivity.
Qed.

Lemma X7_witness :
  exists info,
    nth_error
      (mapTracks (Some [ {| index := None; title := Some "English";
                            language := Some "en" |};
                         {| index := None; title := None;
                            language := None |} ])) 1
    = Some info /\
    trackLanguage info = None /\
    id info = inject_Z (Z.of_nat 1).
Proof.
  apply (proj2 (X7_tracks_keep_their_place _) 1%nat
               {| index := None; title := None; language := None |}).
  reflexivity.
Defined.

Lemma to_uint_not_Nil (n : nat) : Nat.to_uint n <> Decimal.Nil.
Proof.
  intros H. pose proof (DecimalNat.Unsigned.of_to n) as E.
  rewrite H in E. simpl in E. subst n. discriminate H.
Qed.

Lemma trackLabel_inj (i j : nat) : trackLabel i = trackLabel j -> i = j.
Proof.
  unfold trackLabel. intros H. simpl in H.
  injection H as H.
  assert (E : Some (Nat.to_uint (i + 1)) = Some (Nat.to_uint (j + 1))).
  { rewrite <- (NilZero.usu _ (to_uint_not_Nil (i + 1))).
    rewrite <- (NilZero.usu _ (to_uint_not_Nil (j + 1))).
    now rewrite H. }
  injection E as E. apply DecimalNat.Unsigned.to_uint_inj in E. lia.
Qed.

(** X8. Every track handed on has a name, and the name is chosen in a
    fixed order: the title when the engine gives a non-empty one; else the
    language when the engine gives a non-empty one; else the label
    "Track n" with n one more than the position.  The name is never
    empty, and the labels of two positions differ. *)
Theorem X8_track_names (t : RawTrack) (i : nat) :
  name (mapTrack t i) <> "" /\
  (forall s, title t = Some s -> s <> "" -> name (mapTrack t i) = s) /\
  (title t = None \/ title t = Some "" ->
   forall s, language t = Some s -> s <> "" -> name (mapTrack t i) = s) /\
  (title t = None \/ title t = Some "" ->
   language t = None \/ language t = Some "" ->
   name (mapTrack t i) = trackLabel i) /\
  forall j, trackLabel i = trackLabel j -> i = j.
Proof.
  split; [|split; [|split; [|split]]].
  - unfold mapTrack; simpl.
    destruct (title t) as [[| c s] |]; simpl;
      try discriminate;
      destruct (language t) as [[| c' s'] |]; simpl; discriminate.
  - intros s Ht Hs. unfold mapTrack; simpl. rewrite Ht.
    destruct s; [now destruct Hs | reflexivity].
  - intros Ht s Hl Hs. unfold mapTrack; simpl.
    assert (E : truthyString (title t) = []) by (destruct Ht as [-> | ->]; reflexivity).
    rewrite E, Hl.
    destruct s; [now destruct Hs | reflexivity].
  - intros Ht Hl. unfold mapTrack; simpl.
    assert (E : truthyString (title t) = []) by (destruct Ht as [-> | ->]; reflexivity).
    assert (E' : truthyString (language t) = []) by (destruct Hl as [-> | ->]; reflexivity).
    now rewrite E, E'.
  - intros j. apply trackLabel_inj.
Qed.

Lemma X8_witness :
  name (mapTrack {| index := None; title := Some "Commentary";
                    language := Some "en" |} 4) = "Commentary" /\
  name (mapTrack {| index := None; title := Some "";
                    language := Some "en" |} 4) = "en" /\
  name (mapTrack {| index := None; title := None; language := None |} 4)
  = trackLabel 4 /\
  4%nat = 4%nat.
Proof.
  split; [|split; [|split]].
  - apply (proj1 (proj2 (X8_track_names
                           {| index := None; title := Some "Commentary";
                              language := Some "en" |} 4)));
      [reflexivity | discriminate].
  - apply (proj1 (proj2 (proj2 (X8_track_names
                                  {| index := None; title := Some "";
                                     language := Some "en" |} 4))));
      [now right | reflexivity | discriminate].
  - apply (proj1 (proj2 (proj2 (proj2 (X8_track_names
                                         {| index := None; title := None;
                                            language := None |} 4)))));
      now left.
  - apply (proj2 (proj2 (proj2 (proj2 (X8_track_names
                                         {| index := None; title := None;
                                            language := None |} 4)))) 4%nat).
    reflexivity.
Defined.

(** X9. An ExoPlayer load always ends in exactly one [onLoad] call, and
    [onTracksChanged] is called before it exactly when the prop is given
    and the engine reported at least one audio or text track; it is never
    called with two empty lists. *)
Theorem X9_tracks_callback_on_load (props : Props) (d : ExoLoadData)
        (a t : list TrackInfo) :
  In (OnTracksChanged a t) (handleExoLoad props d) <->
  onTracksChanged props = true /\
  a = mapTracks (exoAudioTracks d) /\
  t = mapTracks (exoTextTracks d) /\
  (a <> [] \/ t <> []).
Proof.
  unfold handleExoLoad.
  set (audio := mapTracks (exoAudioTracks d)).
  set (subtitle := mapTracks (exoTextTracks d)).
  split.
  - intros Hin. apply in_app_or in Hin.
    destruct Hin as [Hin | [Hin | []]]; [|discriminate Hin].
    destruct (onTracksChanged props); [|destruct Hin].
    destruct audio as [| x audio]; destruct subtitle as [| y subtitle];
      simpl in Hin; try contradiction;
        destruct Hin as [Hin | []]; injection Hin as <- <-;
          repeat split; first [left; discriminate | right; discriminate].
  - intros (Hprop & -> & -> & Hsome). apply in_or_app. left.
    rewrite Hprop.
    destruct audio as [| x audio]; destruct subtitle as [| y subtitle];
      simpl; try (now left).
    destruct Hsome as [H | H]; now destruct H.
Qed.

Lemma X9_witness :
  In (OnTracksChanged
        [ {| id := 0; name := "Track 1"; trackLanguage := None |} ] [])
     (handleExoLoad
        {| useExoPlayer := None; onCodecError := false; onTracksChanged := true |}
        {| exoDuration := 90; exoNaturalSize := None;
           exoAudioTracks := Some [ {| index := None; title := None;
                                       language := None |} ];
           exoTextTracks := None |}).
Proof.
  apply (proj2 (X9_tracks_callback_on_load _ _ _ _)).
  repeat split. left. discriminate.
Defined.

Lemma units_inj (a b : string) : units a = units b -> a = b.
Proof.
  unfold units. intros H.
  rewrite <- (string_of_list_ascii_of_string a),
          <- (string_of_list_ascii_of_string b).
  now rewrite H.
Qed.

Section Messages.

Variable JSON_stringify : ExoError -> string.

(** X19. No extracted part is lost on the way to the caller: each part
    stands word for word inside the normalized error string, which is the
    string [onError] receives whenever the event is not classified as a
    codec error. *)
Theorem X19_parts_reach_onError (props : Props) (error : ExoError)
        (part : string) :
  In part (errorParts error) ->
  (exists before after : string,
      extractErrorString JSON_stringify error = before ++ part ++ after) /\
  (isCodecError (extractErrorString JSON_stringify error) = false ->
   handleExoError JSON_stringify props error
   = [ OnError (extractErrorString JSON_stringify error) ]).
Proof.
  intros Hin. split.
  - unfold extractErrorString.
    destruct (errorParts error) as [| p0 rest] eqn:E; [contradiction|].
    cbn [List.length Nat.ltb Nat.leb].
    destruct (join_has_part _ _ Hin) as (pre & post & Ej).
    exists (string_of_list_ascii pre), (string_of_list_ascii post).
    apply units_inj. rewrite Ej, !units_append. unfold units.
    now rewrite !list_ascii_of_string_of_list_ascii.
  - intros Hother. unfold handleExoError. now rewrite Hother.
Qed.

(** X20. Whichever engine is mounted, a progress call never reports a
    playable duration of zero while the current time is not zero. *)
Theorem X20_playable_duration_not_zero (props : Props) (ev : EngineEvent)
        (data : ProgressPayload) :
  In (OnProgress data) (deliver JSON_stringify props ev) ->
  (playableDuration data == 0)%Q ->
  (currentTime data == 0)%Q.
Proof.
  intros Hin Hzero.
  destruct (useExoPlayerOrDefault props) eqn:Hengine.
  - destruct ev as [ev | ev].
    2:{ unfold deliver, render in Hin. rewrite Hengine in Hin. destruct Hin. }
    rewrite render_exo in Hin by exact Hengine.
    destruct ev as [d | d | | e | b | t]; simpl in Hin.
    + unfold handleExoLoad in Hin. apply in_app_or in Hin.
      destruct Hin as [Hin | [Hin | []]]; [|discriminate Hin].
      destruct (onTracksChanged props && _); [|destruct Hin].
      destruct Hin as [Hin | []]. discriminate Hin.
    + destruct Hin as [Hin | []]. injection Hin as <-.
      cbn [playableDuration currentTime] in *.
      destruct (exoPlayableDuration d) as [q|]; simpl in Hzero; [|exact Hzero].
      destruct (Qeq_bool q 0) eqn:B; [exact Hzero|].
      apply Qeq_bool_iff in Hzero. congruence.
    + destruct Hin as [Hin | []]. discriminate Hin.
    + unfold handleExoError in Hin.
      destruct (isCodecError _).
      * destruct (onCodecError props); [|destruct Hin].
        destruct Hin as [Hin | []]. discriminate Hin.
      * destruct Hin as [Hin | []]. discriminate Hin.
    + destruct Hin as [Hin | []]. discriminate Hin.
    + destruct Hin as [Hin | []]. discriminate Hin.
  - destruct ev as [ev | ev].
    1:{ unfold deliver, render in Hin. rewrite Hengine in Hin. destruct Hin. }
    rewrite render_mpv in Hin by exact Hengine.
    destruct ev; simpl in Hin; try contradiction;
      try (destruct Hin as [Hin | []]; discriminate Hin).
    + destruct Hin as [Hin | []]. injection Hin as <-. exact Hzero.
    + destruct (onTracksChanged props); [|destruct Hin].
      destruct Hin as [Hin | []]. discriminate Hin.
Qed.

End Messages.

Lemma X19_witness :
  exists before after : string,
    extractErrorString stringifyStub
      (ErrorObject (Some (ErrorInfo (Some "Source error") (Some "22004")))
                   None (Some "Network timeout"))
    = before ++ "Network timeout" ++ after.
Proof.
  apply (@X19_parts_reach_onError stringifyStub
           {| useExoPlayer := None; onCodecError := true;
              onTracksChanged := false |}).
  simpl. tauto.
Defined.

Lemma X20_witness :
  (currentTime {| currentTime := 0; playableDuration := 0 |} == 0)%Q.
Proof.
  apply (@X20_playable_duration_not_zero stringifyStub
           {| useExoPlayer := None; onCodecError := true;
              onTracksChanged := false |}
           (FromExo (ExoProgress {| exoCurrentTime := 0;
                                    exoPlayableDuration := Some 0%Q |}))).
  - simpl. left. reflexivity.
  - reflexivity.
Defined.

End SurfaceExtras.


(** ** More on the focusable controls *)

Module FocusExtras.

Import Animated Focusable FocusSession.
Local Open Scope Q_scope.

Section Controls.

Variable FocusEvent : Type.
Variable Platform_isTV : bool.

(** X10. Every focus and every blur input reaches the caller's [onFocus]
    or [onBlur] prop, once and in the order of arrival, whether focus
    visuals are enabled or not and whatever the state; nothing else is
    called.  With visuals disabled the control stays in the state of its
    mount. *)
Theorem X10_callbacks_pass_through (props : FocusableProps)
        (inputs : list (Input FocusEvent)) :
  (forall st, snd (play Platform_isTV props inputs st) = callbacks props inputs) /\
  (enabled Platform_isTV props = false ->
   fst (play Platform_isTV props inputs (mount)) = mount).
Proof.
  split.
  - induction inputs as [| input rest IH]; intros st; [reflexivity|].
    cbn [play]. destruct (feed Platform_isTV props st input) as [st1 e1] eqn:E1.
    specialize (IH st1).
    destruct (play Platform_isTV props rest st1) as [st2 e2]. simpl in IH.
    subst e2. cbn [snd callbacks flat_map]. f_equal.
    destruct input; simpl in E1; unfold handleFocus, handleBlur in E1;
      now injection E1 as _ <-.
  - intros Hoff.
    induction inputs as [| input rest IH]; [reflexivity|].
    cbn [play].
    assert (E1 : fst (feed Platform_isTV props mount input) = mount).
    { destruct input; simpl; unfold handleFocus, handleBlur; simpl;
        now rewrite ?Hoff. }
    destruct (feed Platform_isTV props mount input) as [st1 e1].
    simpl in E1. subst st1.
    destruct (play Platform_isTV props rest mount) as [st2 e2].
    exact IH.
Qed.

Lemma feed_target (props : FocusableProps) (st : ControlState)
      (input : Input FocusEvent) :
  target (focusProgress st) = (if isFocused st then 1 else 0) ->
  let st' := fst (feed Platform_isTV props st input) in
  target (focusProgress st') = (if isFocused st' then 1 else 0).
Proof.
  intros H. destruct input as [e | e | dt]; simpl.
  - destruct (enabled Platform_isTV props); [reflexivity | exact H].
  - destruct (enabled Platform_isTV props); [reflexivity | exact H].
  - rewrite <- H. unfold target, advance.
    destruct (focusProgress st) as [cur [a|]]; simpl; [|reflexivity].
    now destruct (Qle_bool (duration a) (elapsed a + dt)).
Qed.

Lemma feed_isFocused (props : FocusableProps) (st : ControlState)
      (input : Input FocusEvent) :
  enabled Platform_isTV props = true ->
  isFocused (fst (feed Platform_isTV props st input))
  = lastIsFocus [input] (isFocused st).
Proof.
  intros Hon. destruct input; simpl; now rewrite ?Hon.
Qed.

(** X11. From the mount on, through any focus and blur inputs and any
    passage of time, the focused flag and the animation agree: the
    progress is heading to 1 while the control is focused and to 0 while
    it is not.  With visuals enabled the flag says whether the last focus
    or blur input was a focus. *)
Theorem X11_flag_and_animation_agree (props : FocusableProps)
        (inputs : list (Input FocusEvent)) :
  let st := fst (play Platform_isTV props inputs (mount)) in
  target (focusProgress st) = (if isFocused st then 1 else 0) /\
  (enabled Platform_isTV props = true ->
   isFocused st = lastIsFocus inputs false).
Proof.
  assert (G : forall st0,
             target (focusProgress st0) = (if isFocused st0 then 1 else 0) ->
             let st := fst (play Platform_isTV props inputs st0) in
             target (focusProgress st) = (if isFocused st then 1 else 0) /\
             (enabled Platform_isTV props = true ->
              isFocused st = lastIsFocus inputs (isFocused st0))).
  { induction inputs as [| input rest IH]; intros st0 H0.
    - split; [exact H0 | reflexivity].
    - cbn [play].
      pose proof (feed_target props st0 input H0) as H1.
      pose proof (feed_isFocused props st0 input) as F1.
      destruct (feed Platform_isTV props st0 input) as [st1 e1].
      cbn [fst] in H1, F1.
      specialize (IH st1 H1).
      destruct (play Platform_isTV props rest st1) as [st2 e2].
      cbn [fst] in IH |- *. destruct IH as [IH1 IH2].
      split; [exact IH1|].
      intros Hon. rewrite (IH2 Hon), (F1 Hon). reflexivity. }
  apply (G mount). reflexivity.
Qed.

Lemma easeOutCubic_bounds (t : Q) :
  0 <= t <= 1 -> 0 <= easeOutCubic t <= 1.
Proof.
  intros [H0 H1]. unfold easeOutCubic. simpl Qpower.
  unfold Qpower_positive; simpl pow_pos.
  assert (Hu0 : 0 <= 1 - t) by lra.
  assert (Hu1 : 1 - t <= 1) by lra.
  set (u := 1 - t) in *.
  assert (Hq0 : 0 <= u * u) by (apply Qmult_le_0_compat; assumption).
  assert (Hq1 : u * u <= 1) by nra.
  assert (Hc0 : 0 <= u * (u * u)) by (apply Qmult_le_0_compat; assumption).
  assert (Hc1 : u * (u * u) <= 1) by nra.
  split; lra.
Qed.

Lemma between_ends (f t e : Q) :
  0 <= f <= 1 -> 0 <= t <= 1 -> 0 <= e <= 1 -> 0 <= f + (t - f) * e <= 1.
Proof. intros Hf Ht He. split; nra. Qed.

Lemma fraction_bounds (e d : Q) : 0 <= e -> e < d -> 0 <= e / d <= 1.
Proof.
  intros He Hd. assert (0 < d) by lra. split.
  - apply Qle_shift_div_l; lra.
  - apply Qle_shift_div_r; lra.
Qed.

Lemma InRange_timingStart (v : Value) (to dur : Q) :
  InRange v -> 0 <= to <= 1 -> 0 < dur -> InRange (timingStart v to dur).
Proof.
  intros [Hc _] Hto Hdur. split; [exact Hc|]. simpl.
  repeat split; try tauto; lra.
Qed.

Lemma InRange_advance (v : Value) (dt : Q) :
  InRange v -> 0 <= dt -> InRange (advance dt v).
Proof.
  intros [Hc Hr] Hdt. unfold advance.
  destruct (running v) as [a|] eqn:R.
  - destruct Hr as (Hf & Ht & Hd & He).
    destruct (Qle_bool (duration a) (elapsed a + dt)) eqn:B.
    + split; [exact Ht | exact I].
    + assert (Hlt : elapsed a + dt < duration a).
      { apply Qnot_le_lt. intros Hle. apply Qle_bool_iff in Hle. congruence. }
      split; simpl.
      * apply between_ends; [exact Hf | exact Ht |].
        apply easeOutCubic_bounds, fraction_bounds; lra.
      * repeat split; try tauto; lra.
  - split; [exact Hc|]. now rewrite R.
Qed.

Lemma feed_InRange (props : FocusableProps) (st : ControlState)
      (input : Input FocusEvent) :
  InRange (focusProgress st) ->
  match input with Wait dt => 0 <= dt | _ => True end ->
  InRange (focusProgress (fst (feed Platform_isTV props st input))).
Proof.
  intros H Hdt. destruct input as [e | e | dt]; simpl.
  - destruct (enabled Platform_isTV props); [|exact H].
    apply InRange_timingStart; [exact H | lra | reflexivity].
  - destruct (enabled Platform_isTV props); [|exact H].
    apply InRange_timingStart; [exact H | lra | reflexivity].
  - now apply InRange_advance.
Qed.

Lemma play_InRange (props : FocusableProps) (inputs : list (Input FocusEvent)) :
  noNegativeWait inputs ->
  forall st, InRange (focusProgress st) ->
             InRange (focusProgress (fst (play Platform_isTV props inputs st))).
Proof.
  induction 1 as [| input rest Hin _ IH]; intros st H; [exact H|].
  cbn [play].
  pose proof (feed_InRange props st input H Hin) as H1.
  destruct (feed Platform_isTV props st input) as [st1 e1]. cbn [fst] in H1.
  specialize (IH st1 H1).
  now destruct (play Platform_isTV props rest st1) as [st2 e2].
Qed.

(** X12. From the mount on, through any focus and blur inputs and any
    non-negative passage of time, the progress stays within 0 and 1.
    Hence the ring opacity stays within 0 and 1, the ring scale within
    0.985 and 1, and, for a resolved scale of at least 1, the scale of the
    container within 1 and the resolved scale. *)
Theorem X12_progress_and_scale_bounds (props : FocusableProps)
        (inputs : list (Input FocusEvent)) :
  noNegativeWait inputs ->
  let st := fst (play Platform_isTV props inputs (mount)) in
  0 <= current (focusProgress st) <= 1 /\
  (forall o, ringOpacity Platform_isTV props st = Some o -> 0 <= o <= 1) /\
  (forall r, ringScale Platform_isTV props st = Some r -> 0.985 <= r <= 1) /\
  (1 <= resolvedScale props ->
   forall sc, containerScale Platform_isTV props st = Some sc ->
              1 <= sc <= resolvedScale props).
Proof.
  intros Hwait st.
  assert (Hx : 0 <= current (focusProgress st) <= 1).
  { apply (play_InRange props Hwait). split; [simpl; lra | exact I]. }
  set (x := current (focusProgress st)) in *.
  split; [exact Hx|]. split; [|split].
  - unfold ringOpacity, ringAnimatedStyle. intros o.
    destruct (enabled Platform_isTV props); simpl; [|discriminate].
    intros E. injection E as <-. exact Hx.
  - unfold ringScale, ringAnimatedStyle. intros r.
    destruct (enabled Platform_isTV props); simpl; [|discriminate].
    intros E. injection E as <-. fold x. unfold interpolate. simpl.
    assert (E : 0.985 + (x - 0) * (1 - 0.985) / (1 - 0)
                == 0.985 + x * (1 - 0.985)) by field.
    rewrite E. split; lra.
  - intros Hs sc. unfold containerScale, containerAnimatedStyle.
    destruct (enabled Platform_isTV props); simpl; [|discriminate].
    intros E. injection E as <-. fold x. unfold interpolate. simpl.
    set (s := resolvedScale props) in *.
    assert (E : 1 + (x - 0) * (s - 1) / (1 - 0) == 1 + x * (s - 1)) by field.
    rewrite E. split; nra.
Qed.

(** X13. With focus visuals enabled, the two controls render the same
    focus visuals in every state: the same scale transform, shadow, ring,
    highlight and [focusable] prop. *)
Theorem X13_two_controls_same_visuals (props : FocusableProps)
        (st : ControlState) :
  enabled Platform_isTV props = true ->
  let a := renderPressable Platform_isTV props st in
  let b := renderTouchableOpacity Platform_isTV props st in
  animatedWrapper a = animatedWrapper b /\
  scaleTransform a = scaleTransform b /\
  shadow a = shadow b /\
  ring a = ring b /\
  highlight a = highlight b /\
  focusableProp a = focusableProp b.
Proof.
  intros Hon. unfold renderPressable, renderTouchableOpacity.
  rewrite Hon. simpl. rewrite andb_true_r. repeat split.
Qed.

Lemma play_app (props : FocusableProps) (first second : list (Input FocusEvent)) :
  forall st,
    fst (play Platform_isTV props (first ++ second) st)
    = fst (play Platform_isTV props second
             (fst (play Platform_isTV props first st))).
Proof.
  induction first as [| input rest IH]; intros st; [reflexivity|].
  cbn [app play].
  destruct (feed Platform_isTV props st input) as [st1 e1].
  specialize (IH st1).
  destruct (play Platform_isTV props (rest ++ second) st1) as [st2 e2].
  destruct (play Platform_isTV props rest st1) as [st3 e3].
  exact IH.
Qed.

(** X21. Whatever happened to an enabled control before, 140 ms after its
    last focus input it is focused with the progress at rest on 1, and 140
    ms after its last blur input it is unfocused with the progress at rest
    on 0: no history leaves the progress on the way. *)
Theorem X21_progress_settles (props : FocusableProps)
        (history : list (Input FocusEvent)) (e : FocusEvent) (later : Q) :
  enabled Platform_isTV props = true ->
  140 <= later ->
  fst (play Platform_isTV props (history ++ [ FocusIn e; Wait later ]) (mount))
  = {| focusProgress := newValue 1; isFocused := true |} /\
  fst (play Platform_isTV props (history ++ [ BlurOut e; Wait later ]) (mount))
  = {| focusProgress := newValue 0; isFocused := false |}.
Proof.
  intros Hon Hlater.
  rewrite !play_app.
  set (st := fst (play Platform_isTV props history (mount))).
  cbn [play feed fst]. unfold handleFocus, handleBlur. rewrite Hon.
  unfold elapse, animateTo, setIsFocused.
  cbn [fst focusProgress isFocused].
  split; f_equal.
  - now apply (@FocusFacts.advance_completes
                 (timingStart (focusProgress st) 1 140)
                 {| fromValue := current (focusProgress st); toValue := 1;
                    duration := 140; elapsed := 0 |}).
  - now apply (@FocusFacts.advance_completes
                 (timingStart (focusProgress st) 0 140)
                 {| fromValue := current (focusProgress st); toValue := 0;
                    duration := 140; elapsed := 0 |}).
Qed.

End Controls.

Lemma X21_witness :
  fst (play true
         {| enableTVFocus := None; preset := Some TvFocus.poster;
            Focusable.focusBorderRadius := None; Focusable.focusScale := None;
            Focusable.focusRingWidth := None; onFocus := false;
            onBlur := false; focusable := None; activeOpacity := None |}
         ([ FocusIn 1%nat; Wait 30; BlurOut 2%nat; Wait 10 ]
            ++ [ FocusIn 3%nat; Wait 200 ]) (mount))
  = {| focusProgress := newValue 1; isFocused := true |}.
Proof.
  refine (proj1 (@X21_progress_settles nat true _
                   [ FocusIn 1%nat; Wait 30; BlurOut 2%nat; Wait 10 ]
                   3%nat 200 _ _)).
  - reflexivity.
  - discriminate.
Defined.

Lemma X12_witness :
  let st := fst (play true
                   {| enableTVFocus := None; preset := Some TvFocus.card;
                      Focusable.focusBorderRadius := None;
                      Focusable.focusScale := None;
                      Focusable.focusRingWidth := None; onFocus := false;
                      onBlur := false; focusable := None;
                      activeOpacity := None |}
                   [ FocusIn 1%nat; Wait 70; BlurOut 2%nat; Wait 35 ] (mount)) in
  0 <= current (focusProgress st) <= 1.
Proof.
  intros st.
  refine (proj1 (@X12_progress_and_scale_bounds nat true _
                   [ FocusIn 1%nat; Wait 70; BlurOut 2%nat; Wait 35 ] _)).
  repeat constructor; discriminate.
Defined.

Lemma X13_witness :
  let props := {| enableTVFocus := Some true; preset := Some TvFocus.pill;
                  Focusable.focusBorderRadius := Some 16;
                  Focusable.focusScale := None;
                  Focusable.focusRingWidth := None; onFocus := true;
                  onBlur := false; focusable := None;
                  activeOpacity := None |} in
  ring (renderPressable false props (mount))
  = ring (renderTouchableOpacity false props (mount)).
Proof.
  intros props.
  apply (@X13_two_controls_same_visuals false props (mount) eq_refl).
Defined.

Lemma X10_witness :
  fst (play true
         {| enableTVFocus := Some false; preset := None;
            Focusable.focusBorderRadius := None; Focusable.focusScale := None;
            Focusable.focusRingWidth := None; onFocus := true; onBlur := true;
            focusable := None; activeOpacity := None |}
         [ FocusIn 1%nat; Wait 70; BlurOut 2%nat ] (mount)) = mount.
Proof.
  apply (proj2 (X10_callbacks_pass_through true _ _)).
  reflexivity.
Defined.

Lemma X11_witness :
  isFocused
    (fst (play true
            {| enableTVFocus := None; preset := Some TvFocus.card;
               Focusable.focusBorderRadius := None; Focusable.focusScale := None;
               Focusable.focusRingWidth := None; onFocus := false;
               onBlur := false; focusable := None; activeOpacity := None |}
            [ FocusIn 1%nat; BlurOut 2%nat; Wait 20; FocusIn 3%nat ] (mount)))
  = true.
Proof.
  refine (proj2 (@X11_flag_and_animation_agree nat true
                   {| enableTVFocus := None; preset := Some TvFocus.card;
                      Focusable.focusBorderRadius := None;
                      Focusable.focusScale := None;
                      Focusable.focusRingWidth := None; onFocus := false;
                      onBlur := false; focusable := None;
                      activeOpacity := None |}
                   [ FocusIn 1%nat; BlurOut 2%nat; Wait 20; FocusIn 3%nat ]) _).
  reflexivity.
Defined.

End FocusExtras.


(** ** The provider filter *)

Module ProviderFilterExtras.

Import Animated Focusable ProviderFilter.
Local Open Scope string_scope.

Lemma mountedFrom_incl (mounted : nat -> bool) (providers : list Provider) :
  forall index item,
    In item (mountedFrom mounted index providers) -> In item providers.
Proof.
  induction providers as [| p rest IH]; intros index item H; [exact H|].
  simpl in H. destruct (mounted index).
  - destruct H as [<- | H]; [now left | right; eapply IH; exact H].
  - right. eapply IH. exact H.
Qed.

Lemma mountedFrom_nth (mounted : nat -> bool) (providers : list Provider) :
  forall index i item,
    nth_error providers i = Some item ->
    mounted (index + i)%nat = true ->
    In item (mountedFrom mounted index providers).
Proof.
  induction providers as [| p rest IH]; intros index i item Hnth Hm.
  - destruct i; discriminate Hnth.
  - destruct i as [| i]; simpl in Hnth |- *.
    + injection Hnth as ->. rewrite Nat.add_0_r in Hm. rewrite Hm. now left.
    + assert (Hin : In item (mountedFrom mounted (S index) rest)).
      { apply (IH (S index) i item Hnth).
        now replace (S index + i)%nat with (index + S i)%nat by lia. }
      destruct (mounted index); [now right | exact Hin].
Qed.

Lemma selected_count (selectedProvider : string) (mounted : nat -> bool)
      (providers : list Provider) :
  forall index,
    (List.length (filter selected
                         (map (renderItem selectedProvider)
                              (mountedFrom mounted index providers)))
     <= count_occ string_dec (map id providers) selectedProvider)%nat.
Proof.
  induction providers as [| item rest IH]; intros index; [simpl; lia|].
  specialize (IH (S index)).
  cbn [mountedFrom map count_occ].
  destruct (mounted index); cbn [map filter renderItem selected];
    destruct (String.eqb_spec selectedProvider (id item)) as [E | E];
    destruct (string_dec (id item) selectedProvider) as [E' | E'];
    try congruence; simpl; lia.
Qed.

(** X16. Of the chips the list has mounted, a chip carries the selected
    style exactly when its own provider's id is [selectedProvider]; so a
    selected chip is on screen once the selected provider's position is
    mounted, a selected chip means that [selectedProvider] is the id of a
    provider, and when the provider ids are pairwise distinct at most one
    mounted chip is selected. *)
Theorem X16_selected_chip (selectedProvider : string)
        (mounted : nat -> bool) (providers : list Provider) :
  (forall i item,
      nth_error providers i = Some item ->
      mounted i = true ->
      In (renderItem selectedProvider item)
         (chips selectedProvider mounted providers) /\
      (selected (renderItem selectedProvider item) = true <->
       id item = selectedProvider)) /\
  (forall chip,
      In chip (chips selectedProvider mounted providers) ->
      selected chip = true ->
      In selectedProvider (map id providers)) /\
  (NoDup (map id providers) ->
   (List.length (filter selected (chips selectedProvider mounted providers))
    <= 1)%nat).
Proof.
  split; [|split].
  - intros i item Hnth Hm. split.
    + unfold chips. apply in_map.
      now apply (@mountedFrom_nth mounted providers 0 i item).
    + simpl. rewrite String.eqb_eq. split; congruence.
  - intros chip Hin Hsel. unfold chips in Hin. apply in_map_iff in Hin.
    destruct Hin as (item & <- & Hin). simpl in Hsel.
    apply String.eqb_eq in Hsel. subst selectedProvider.
    apply in_map. eapply mountedFrom_incl. exact Hin.
  - intros Hnodup. unfold chips.
    pose proof (selected_count selectedProvider mounted providers 0) as Hc.
    pose proof (proj1 (NoDup_count_occ string_dec (map id providers)) Hnodup
                      selectedProvider) as Hone.
    lia.
Qed.

Lemma X16_witness :
  (List.length
     (filter selected
             (chips "tmdb" (fun i => Nat.leb 1 i)
                    [ {| id := "all"; name := "All" |};
                      {| id := "tmdb"; name := "TMDB" |};
                      {| id := "kitsu"; name := "Kitsu" |} ])) <= 1)%nat.
Proof.
  apply (proj2 (proj2 (X16_selected_chip _ _ _))).
  simpl. repeat constructor; simpl; intuition discriminate.
Defined.

Section Chips.

Variable FocusEvent : Type.

(** X17. A chip scrolls the list exactly when it shows focus visuals.  On
    TV a focus event marks the chip focused, starts the 140 ms timing
    towards 1 and, once the list is mounted, asks for one animated scroll
    that centres the chip's own index; off TV a focus event changes
    nothing and scrolls nothing. *)
Theorem X17_chip_focus (Platform_isTV listRef : bool) (index : nat)
        (e : FocusEvent) (st : ControlState) :
  focusChip Platform_isTV listRef index e st
  = if Platform_isTV
    then ({| focusProgress := timingStart (focusProgress st) 1 140;
             isFocused := true |},
          if listRef then [ ScrollToIndex index true 0.5%Q ] else [])
    else (st, []).
Proof.
  unfold focusChip, handleFocus, chipProps, chipOnFocus, enabled; simpl.
  destruct Platform_isTV; simpl; [|reflexivity].
  now rewrite app_nil_r.
Qed.

End Chips.

End ProviderFilterExtras.

(** ** The error modal *)

Module ErrorModalExtras.

Import ErrorModal.
Local Open Scope string_scope.

(** X18. The modal never shows an empty message; it offers the copy
    button exactly when a press on it would reach the clipboard; and on TV
    there is no copy button and [handleCopy] does nothing, whether or not
    the clipboard module could be loaded. *)
Theorem X18_error_modal (isTV requireWorks written copied : bool) (width : Q)
        (props : ErrorModalProps) (view : ModalView) :
  render (ExpoClipboard isTV requireWorks) copied width props = Some view ->
  message view <> "" /\
  (errorDetails props <> "" -> message view = errorDetails props) /\
  (copyButton view <> None <->
   In (SetStringAsync (errorDetails props))
      (handleCopy (ExpoClipboard isTV requireWorks) written props)) /\
  (isTV = true ->
   copyButton view = None /\
   handleCopy (ExpoClipboard isTV requireWorks) written props = []).
Proof.
  unfold render. destruct (showErrorModal props); [|discriminate].
  simpl. intros E. injection E as <-. cbn [message copyButton].
  split; [|split; [|split]].
  - destruct (errorDetails props); discriminate.
  - destruct (errorDetails props); [intros H; now destruct H | reflexivity].
  - unfold handleCopy. destruct (ExpoClipboard isTV requireWorks); simpl.
    + split; [intros _; now left | discriminate].
    + split; [intros H; now destruct H | intros []].
  - intros ->. split; reflexivity.
Qed.

Lemma X18_witness :
  handleCopy (ExpoClipboard true true) true
             {| showErrorModal := true; errorDetails := "Network timeout";
                onDismiss := false |} = [].
Proof.
  refine (proj2 (proj2 (proj2 (proj2
    (@X18_error_modal true true true false 1920
       {| showErrorModal := true; errorDetails := "Network timeout";
          onDismiss := false |} _ eq_refl))) eq_refl)).
Defined.

End ErrorModalExtras.
